(** * annonet: class definitions, label decoding, gain parsing and the
      inference main loop

    A shallow embedding of [annonet.h] and [annonet_infer_main.cpp].
    Fixed-width C++ integers are integers in [Z] with the conversion
    written out, [std::string] is [string], [std::vector] is [list],
    [std::unordered_map] is [gmap], and a C++ call that may throw is a
    value of [outcome]. *)

From Stdlib Require Import Ascii.
From Stdlib Require QArith_base.
From stdpp Require Import base numbers list list_numbers strings gmap pretty.

Local Open Scope Z_scope.

Set Warnings "-register-all".

(** ** Results of C++ calls *)

(** A call either returns, or leaves through a [std::exception] whose
    [what()] is recorded, or has no defined result: a failed [assert] /
    [RAPIDJSON_ASSERT], or [operator[]] past the end of a vector. *)
Inductive outcome (A : Type) : Type :=
| Returned (a : A)
| Thrown (what : string)
| Undefined.
Global Arguments Returned {A} a.
Global Arguments Thrown {A} what.
Global Arguments Undefined {A}.

Global Instance outcome_ret : MRet outcome := @Returned.
Global Instance outcome_bind : MBind outcome := λ A B f m,
  match m with
  | Returned a => f a
  | Thrown what => Thrown what
  | Undefined => Undefined
  end.

(** A call into a library the program links against (dlib's image
    loader, [std::stod], the inference routine): it returns a value or
    throws. *)
Inductive library_result (A : Type) : Type :=
| Value (a : A)
| Exception (what : string).
Global Arguments Value {A} a.
Global Arguments Exception {A} what.

Definition call {A} (r : library_result A) : outcome A :=
  match r with
  | Value a => Returned a
  | Exception what => Thrown what
  end.

(** ** Fixed-width integers *)

Definition to_uint8 (z : Z) : Z := z mod 2 ^ 8.
Definition to_uint16 (z : Z) : Z := z mod 2 ^ 16.
Definition to_size_t (z : Z) : Z := z mod 2 ^ 64.

(** [dlib::loss_multiclass_log_per_pixel_::label_to_ignore], which dlib
    defines as [std::numeric_limits<uint16_t>::max()]. *)
Definition label_to_ignore : Z := 65535.

(** ** Pixels and classes (annonet.h) *)

(** [dlib::rgb_alpha_pixel]: four [unsigned char] channels. *)
Record rgb_alpha_pixel : Type := RgbAlphaPixel {
  red : Z; green : Z; blue : Z; alpha : Z
}.

Global Instance rgb_alpha_pixel_eq_dec : EqDecision rgb_alpha_pixel.
Proof. solve_decision. Defined.

(** The four-argument constructor takes [unsigned char]s, so an [int]
    argument is converted on the way in. *)
Definition rgb_alpha_pixel_of (r g b a : Z) : rgb_alpha_pixel :=
  RgbAlphaPixel (to_uint8 r) (to_uint8 g) (to_uint8 b) (to_uint8 a).

(** [operator ==] on [rgb_alpha_pixel]. *)
Definition pixel_eq (a b : rgb_alpha_pixel) : bool :=
  (red a =? red b) && (green a =? green b) &&
  (blue a =? blue b) && (alpha a =? alpha b).

Record AnnoClass : Type := MkAnnoClass {
  index : Z;                      (* uint16_t *)
  rgba_label : rgb_alpha_pixel;
  classlabel : string
}.

(** The constructor's first parameter is [uint16_t]. *)
Definition AnnoClass_of (i : Z) (rgba : rgb_alpha_pixel) (name : string) : AnnoClass :=
  MkAnnoClass (to_uint16 i) rgba name.

Definition rgba_ignore_label : rgb_alpha_pixel := rgb_alpha_pixel_of 0 0 0 0.

(** ** JSON documents as rapidjson presents them *)

(** [JInt] is a number written as an integer, [JReal] any other number
    (kept as its lexeme). *)
Inductive json : Type :=
| JNull
| JBool (b : bool)
| JInt (z : Z)
| JReal (lexeme : string)
| JString (s : string)
| JArray (items : list json)
| JObject (members : list (string * json)).

(** [FindMember]: the first member of that name, [None] for
    [MemberEnd()]; asserts that the value is an object. *)
Fixpoint find_member (members : list (string * json)) (name : string) : option json :=
  match members with
  | [] => None
  | (k, v) :: rest => if String.eqb k name then Some v else find_member rest name
  end.

Definition FindMember (v : json) (name : string) : outcome (option json) :=
  match v with
  | JObject members => Returned (find_member members name)
  | _ => Undefined
  end.

(** [IsInt()]: an integer that fits in 32 signed bits. *)
Definition is_int (z : Z) : bool := (- 2 ^ 31 <=? z) && (z <? 2 ^ 31).
Global Arguments is_int : simpl never.

(** [GetInt] asserts [IsInt()]. *)
Definition GetInt (v : json) : outcome Z :=
  match v with
  | JInt z => if is_int z then Returned z else Undefined
  | _ => Undefined
  end.

(** [GetString] asserts [IsString()]. *)
Definition GetString (v : json) : outcome string :=
  match v with
  | JString s => Returned s
  | _ => Undefined
  end.

Definition newline : string := String (Ascii.ascii_of_nat 10) "".

(** ** parse_anno_classes *)

Section AnnoClasses.

(** [rapidjson::Document::Parse]: [None] when [HasParseError()]. *)
Variable Parse : string → option json.

Definition default_anno_classes : list AnnoClass :=
  [ AnnoClass_of 0 (rgb_alpha_pixel_of 0 255 0 64) "clean";
    AnnoClass_of 1 (rgb_alpha_pixel_of 255 0 0 128) "defect" ].

(** One iteration of the loop over the [anno_classes] array. *)
Definition parse_anno_class (i : Z) (anno_class : json) : outcome AnnoClass :=
  name_member ← FindMember anno_class "name";
  color_member ← FindMember anno_class "color";
  match name_member with
  | None => Thrown "Unexpected anno classes json content - no name found"
  | Some name =>
    match color_member with
    | None => Thrown "Unexpected anno classes json content - no color found"
    | Some color =>
      red_member ← FindMember color "red";
      green_member ← FindMember color "green";
      blue_member ← FindMember color "blue";
      alpha_member ← FindMember color "alpha";
      match red_member, green_member, blue_member, alpha_member with
      | Some r, Some g, Some b, Some a =>
        rv ← GetInt r;
        gv ← GetInt g;
        bv ← GetInt b;
        av ← GetInt a;
        let rgba_value := rgb_alpha_pixel_of rv gv bv av in
        if pixel_eq rgba_value rgba_ignore_label then
          Thrown "Unexpected anno classes json content - rgba (0, 0, 0, 0) is reserved for pixels to be ignored"
        else
          classlabel ← GetString name;
          Returned (AnnoClass_of i rgba_value classlabel)
      | _, _, _, _ =>
        Thrown "Unexpected anno classes json content - color should have all components (red, green, blue, alpha)"
      end
    end
  end.

(** The [for] loop: [items] are the entries from position [i] on,
    [anno_classes] the vector built so far. *)
Fixpoint parse_anno_classes_loop (i : Z) (items : list json)
    (anno_classes : list AnnoClass) : outcome (list AnnoClass) :=
  match items with
  | [] => Returned anno_classes
  | anno_class :: rest =>
    c ← parse_anno_class i anno_class;
    parse_anno_classes_loop (i + 1) rest (anno_classes ++ [c])
  end.

Definition parse_anno_classes (json_text : string) : outcome (list AnnoClass) :=
  if String.eqb json_text "" then Returned default_anno_classes
  else
    match Parse json_text with
    | None => Thrown ("Error parsing json" +:+ newline +:+ json_text)
    | Some doc =>
      match doc with
      | JObject members =>
        match find_member members "anno_classes" with
        | Some (JArray items) => parse_anno_classes_loop 0 items []
        | _ => Thrown "Unexpected anno classes json content - there should be an anno_classes array"
        end
      | _ => Thrown "Unexpected anno classes json content - the document should be an object"
      end
    end.

End AnnoClasses.

(** ** Labels: colour to index and back *)

(** What [operator <<] prints for an [unsigned char]: the character. *)
Definition show_uchar (z : Z) : string := String (Ascii.ascii_of_N (Z.to_N z)) "".

Definition unknown_class_message (p : rgb_alpha_pixel) : string :=
  "Unknown class: r = " +:+ show_uchar (red p) +:+ ", g = " +:+ show_uchar (green p) +:+
  ", b = " +:+ show_uchar (blue p) +:+ ", alpha = " +:+ show_uchar (alpha p).

(** The range-[for] of [rgba_label_to_index_label]: the index of the first
    class with that colour. *)
Fixpoint find_class_index (rgba : rgb_alpha_pixel) (anno_classes : list AnnoClass) : option Z :=
  match anno_classes with
  | [] => None
  | anno_class :: rest =>
    if pixel_eq (rgba_label anno_class) rgba then Some (index anno_class)
    else find_class_index rgba rest
  end.

Definition rgba_label_to_index_label (rgba : rgb_alpha_pixel)
    (anno_classes : list AnnoClass) : outcome Z :=
  if pixel_eq rgba rgba_ignore_label then Returned label_to_ignore
  else
    match find_class_index rgba anno_classes with
    | Some i => Returned i
    | None => Thrown (unknown_class_message rgba)
    end.

(** annonet_infer_main.cpp. [index_label] is a [uint16_t]; the vector is
    read with [operator[]] and the class's index is asserted. *)
Definition index_label_to_rgba_label (index_label : Z)
    (anno_classes : list AnnoClass) : outcome rgb_alpha_pixel :=
  match anno_classes !! Z.to_nat index_label with
  | None => Undefined
  | Some anno_class =>
    if index anno_class =? index_label then Returned (rgba_label anno_class)
    else Undefined
  end.

(** ** std::string and std::stoul as the gain parser uses them *)

(** [std::string::npos] and [ULONG_MAX] on an LP64 platform. *)
Definition npos : Z := 2 ^ 64 - 1.
Definition ULONG_MAX : Z := 2 ^ 64 - 1.

Definition str_length (s : string) : Z := Z.of_nat (String.length s).

(** [s.find(c)]: position of the first [c], or [npos]. *)
Fixpoint find_from (c : ascii) (s : string) (pos : Z) : Z :=
  match s with
  | EmptyString => npos
  | String a rest => if Ascii.eqb a c then pos else find_from c rest (pos + 1)
  end.

Definition find (s : string) (c : ascii) : Z := find_from c s 0.

(** [s.substr(pos, count)] for [pos <= s.size()]: the characters
    [pos .. pos + min(count, size - pos)).  The parser only calls it
    with such a [pos]. *)
Definition substr (s : string) (pos count : Z) : string :=
  String.substring (Z.to_nat pos) (Z.to_nat (Z.min count (str_length s - pos))) s.

Definition isspace (a : ascii) : bool :=
  let n := Z.of_N (Ascii.N_of_ascii a) in
  (n =? 32) || ((9 <=? n) && (n <=? 13)).

Fixpoint skip_spaces (s : string) : string :=
  match s with
  | String a rest => if isspace a then skip_spaces rest else s
  | EmptyString => s
  end.

Definition digit_value (a : ascii) : option Z :=
  let n := Z.of_N (Ascii.N_of_ascii a) in
  if (48 <=? n) && (n <=? 57) then Some (n - 48) else None.

(** The longest run of decimal digits at the front of [s]; [None] when
    there is no digit at all. *)
Fixpoint read_digits (s : string) (acc : option Z) : option Z :=
  match s with
  | String a rest =>
    match digit_value a with
    | Some d => read_digits rest (Some (10 * default 0 acc + d))
    | None => acc
    end
  | EmptyString => acc
  end.

(** [std::stoul(s)] in base 10, through [strtoul]: leading white space,
    an optional sign, digits; [std::invalid_argument] without a digit,
    [std::out_of_range] past [ULONG_MAX]; a minus sign negates in
    [unsigned long].  Both exceptions answer ["stoul"] to [what()]. *)
Definition stoul (s : string) : outcome Z :=
  let s1 := skip_spaces s in
  let '(negative, s2) :=
    match s1 with
    | String "-"%char rest => (true, rest)
    | String "+"%char rest => (false, rest)
    | _ => (false, s1)
    end in
  match read_digits s2 None with
  | None => Thrown "stoul"
  | Some v =>
    if ULONG_MAX <? v then Thrown "stoul"
    else Returned (if negative : bool then to_size_t (- v) else v)
  end.

(** ** Class-specific gains (annonet_infer_main.cpp) *)

Section Gains.

(** [double] and [std::stod] are kept abstract: a value type, its
    [0.0], and a conversion that returns a value or throws. *)
Variable double : Type.
Variable zero : double.
Variable stod : string → library_result double.

Record class_specific_value_type : Type := MkClassSpecificValue {
  class_index : Z;              (* uint16_t *)
  value : double
}.

Definition format_error : string :=
  "The gains must be supplied in the format index:gain (e.g., 1:-0.5)".

Definition parse_class_specific_value (string_from_command_line : string)
    : outcome class_specific_value_type :=
  let colon_pos := find string_from_command_line ":"%char in
  if (colon_pos =? npos) || (colon_pos <? 1) ||
     (colon_pos >=? to_size_t (str_length string_from_command_line - 1))
  then Thrown format_error
  else
    i ← stoul (substr string_from_command_line 0 colon_pos);
    v ← call (stod (substr string_from_command_line (colon_pos + 1) npos));
    Returned (MkClassSpecificValue (to_uint16 i) v).

Definition index_error (class_index class_count : Z) : string :=
  "Can't define class-specific value for index " +:+ pretty class_index +:+
  " when there are only " +:+ pretty class_count +:+ " classes".

(** The range-[for] over the command-line strings; [class_specific_values]
    is the vector as assigned so far. *)
Fixpoint parse_class_specific_values_loop (strings_from_command_line : list string)
    (class_count : Z) (class_specific_values : list double) : outcome (list double) :=
  match strings_from_command_line with
  | [] => Returned class_specific_values
  | string_from_command_line :: rest =>
    v ← parse_class_specific_value string_from_command_line;
    if class_index v >=? class_count then
      Thrown (index_error (class_index v) class_count)
    else
      parse_class_specific_values_loop rest class_count
        (<[Z.to_nat (class_index v) := value v]> class_specific_values)
  end.

(** [class_count] is a [uint16_t]. *)
Definition parse_class_specific_values (strings_from_command_line : list string)
    (class_count : Z) : outcome (list double) :=
  parse_class_specific_values_loop strings_from_command_line class_count
    (replicate (Z.to_nat class_count) zero).

End Gains.

Global Arguments class_index {double} _.
Global Arguments value {double} _.
Global Arguments MkClassSpecificValue {double} _ _.
Global Arguments parse_class_specific_value {double} stod _.
Global Arguments parse_class_specific_values_loop {double} stod _ _ _.
Global Arguments parse_class_specific_values {double} zero stod _ _.

(** A stand-in for [std::stod] on plain literals [-]digits[.digits],
    for running the parser on concrete command lines: the exact decimal
    value, numerator over a power of ten.  On such a literal [std::stod]
    returns the double nearest to it; anything else is refused here. *)
Fixpoint read_fraction (s : string) (numerator : Z) (denominator : positive)
    (seen_point : bool) : option QArith_base.Q :=
  match s with
  | EmptyString => Some (QArith_base.Qmake numerator denominator)
  | String a rest =>
    match digit_value a with
    | Some d =>
      read_fraction rest (10 * numerator + d)
        (if seen_point then 10 * denominator else denominator)%positive seen_point
    | None =>
      if Ascii.eqb a "."%char && negb seen_point
      then read_fraction rest numerator denominator true
      else None
    end
  end.

Definition stod_decimal (s : string) : library_result QArith_base.Q :=
  let '(negative, digits) :=
    match s with
    | String "-"%char rest => (true, rest)
    | _ => (false, s)
    end in
  match digits with
  | EmptyString => Exception "stod"
  | String a _ =>
    match digit_value a, read_fraction digits 0 1 false with
    | Some _, Some q => Value (if negative : bool then QArith_base.Qopp q else q)
    | _, _ => Exception "stod"
    end
  end.

(** ** Images and samples (annonet.h) *)

(** [dlib::matrix<T>]: [nr] rows, [nc] columns, [cell m r c] is [m(r, c)]. *)
Record matrix (T : Type) : Type := Matrix {
  nr : Z; nc : Z; cell : Z → Z → T
}.
Global Arguments Matrix {T} _ _ _.
Global Arguments nr {T} _.
Global Arguments nc {T} _.
Global Arguments cell {T} _ _ _.

(** A default-constructed matrix of numbers is 0 x 0. *)
Definition empty_matrix : matrix Z := Matrix 0 0 (λ _ _, 0).

(** [m.set_size(rows, cols)]; dlib leaves the new cells unspecified, the
    model shows them as 0 until they are assigned. *)
Definition set_size (rows cols : Z) (m : matrix Z) : matrix Z :=
  Matrix rows cols (λ _ _, 0).

(** [m(r, c) = v]. *)
Definition assign {T} (m : matrix T) (r c : Z) (v : T) : matrix T :=
  Matrix (nr m) (nc m)
    (λ r' c', if (r' =? r) && (c' =? c) then v else cell m r' c').

Record image_filenames : Type := MkImageFilenames {
  image_filename : string;
  label_filename : string
}.

(** [dlib::point(x, y)]. *)
Record point : Type := Point { point_x : Z; point_y : Z }.

Record sample : Type := MkSample {
  sample_image_filenames : image_filenames;
  input_image : matrix Z;                        (* uint8_t pixels *)
  label_image : matrix Z;                        (* uint16_t labels *)
  labeled_points_by_class : gmap Z (list point);
  error : string
}.

Definition new_sample : sample :=
  MkSample (MkImageFilenames "" "") empty_matrix empty_matrix ∅ "".

Definition with_image_filenames (f : image_filenames) (s : sample) : sample :=
  MkSample f (input_image s) (label_image s) (labeled_points_by_class s) (error s).
Definition with_input_image (m : matrix Z) (s : sample) : sample :=
  MkSample (sample_image_filenames s) m (label_image s) (labeled_points_by_class s) (error s).
Definition with_label_image (m : matrix Z) (s : sample) : sample :=
  MkSample (sample_image_filenames s) (input_image s) m (labeled_points_by_class s) (error s).
Definition with_labeled_points (p : gmap Z (list point)) (s : sample) : sample :=
  MkSample (sample_image_filenames s) (input_image s) (label_image s) p (error s).
Definition with_error (e : string) (s : sample) : sample :=
  MkSample (sample_image_filenames s) (input_image s) (label_image s)
    (labeled_points_by_class s) e.

(** ** Statements that update a state and may throw *)

(** A statement run on a state [S] gives its outcome and the state it
    leaves behind, also when it throws. *)
Definition statement (S : Type) : Type := S → outcome () * S.

(** [for (x : items) body(x)], left as soon as an iteration does not
    complete. *)
Fixpoint for_each {S A} (body : A → statement S) (items : list A) : statement S :=
  λ s,
  match items with
  | [] => (Returned (), s)
  | x :: rest =>
    match body x s with
    | (Returned _, s') => for_each body rest s'
    | (Thrown what, s') => (Thrown what, s')
    | (Undefined, s') => (Undefined, s')
    end
  end.

(** [for (long i = 0; i < n; ++i) body(i)]. *)
Definition for_range {S} (n : Z) (body : Z → statement S) : statement S :=
  for_each body (seqZ 0 n).

(** ** decode_rgba_label_image *)

(** [labeled_points_by_class[label].push_back(p)]. *)
Definition push_labeled_point (label : Z) (p : point)
    (points : gmap Z (list point)) : gmap Z (list point) :=
  <[label := default [] (points !! label) ++ [p]]> points.

(** The body of the inner loop at row [r], column [c]. *)
Definition decode_pixel (rgba_label_image : matrix rgb_alpha_pixel)
    (anno_classes : list AnnoClass) (r c : Z) : statement sample :=
  λ s,
  match rgba_label_to_index_label (cell rgba_label_image r c) anno_classes with
  | Returned label =>
    let s1 :=
      if label =? label_to_ignore then s
      else with_labeled_points
             (push_labeled_point label (Point c r) (labeled_points_by_class s)) s in
    (Returned (), with_label_image (assign (label_image s1) r c label) s1)
  | Thrown what => (Thrown what, s)
  | Undefined => (Undefined, s)
  end.

Definition decode_rgba_label_image (rgba_label_image : matrix rgb_alpha_pixel)
    (anno_classes : list AnnoClass) : statement sample :=
  λ ground_truth_sample,
  let nr := nr rgba_label_image in
  let nc := nc rgba_label_image in
  let s := with_label_image (set_size nr nc (label_image ground_truth_sample))
             ground_truth_sample in
  let s := with_labeled_points ∅ s in
  for_range nr (λ r, for_range nc (λ c,
    decode_pixel rgba_label_image anno_classes r c)) s.

(** ** read_sample *)

(** A [std::string] assigned from a [const char*], as in
    [sample.error = e.what()]: the characters before the first NUL. *)
Fixpoint from_c_str (s : string) : string :=
  match s with
  | EmptyString => EmptyString
  | String a rest =>
    if Ascii.eqb a (Ascii.ascii_of_nat 0) then EmptyString
    else String a (from_c_str rest)
  end.

Section Reader.

(** [dlib::load_image] into a [matrix<input_pixel_type>] and into a
    [matrix<rgb_alpha_pixel>], as functions of the file name. *)
Variable load_image : string → library_result (matrix Z).
Variable load_rgba_image : string → library_result (matrix rgb_alpha_pixel).

(** The [try] block. *)
Definition read_sample_try (filenames : image_filenames)
    (anno_classes : list AnnoClass) (require_ground_truth : bool) : statement sample :=
  λ s,
  match load_image (image_filename filenames) with
  | Exception what => (Thrown what, s)
  | Value image =>
    let s := with_input_image image s in
    if negb (String.eqb (label_filename filenames) "") then
      match load_rgba_image (label_filename filenames) with
      | Exception what => (Thrown what, s)
      | Value rgba_label_image =>
        if (nr (input_image s) =? nr rgba_label_image)
           || (nc (input_image s) =? nc rgba_label_image)
        then decode_rgba_label_image rgba_label_image anno_classes s
        else (Returned (), with_error "Label image size mismatch" s)
      end
    else if require_ground_truth then
      (Returned (), with_error "No ground truth available" s)
    else (Returned (), s)
  end.

(** The whole function: the [catch (std::exception& e)] stores
    [e.what()], read as a C string, in the sample, which is then
    returned. *)
Definition read_sample (filenames : image_filenames)
    (anno_classes : list AnnoClass) (require_ground_truth : bool) : outcome sample :=
  let s := with_image_filenames filenames new_sample in
  match read_sample_try filenames anno_classes require_ground_truth s with
  | (Returned _, s') => Returned s'
  | (Thrown what, s') => Returned (with_error (from_c_str what) s')
  | (Undefined, _) => Undefined
  end.

End Reader.

(** ** The inference program (annonet_infer_main.cpp) *)

Record result_image_type : Type := MkResultImage {
  filename : string;
  original_width : Z;
  original_height : Z;
  probability_image : matrix Z
}.

(** Modelled from the spec: the sample as [main] reads it.  [main] uses
    [sample.original_width] and [sample.original_height], which the
    [sample] struct of annonet.h under src/ does not declare; the spec's
    DecodedSample carries them as originalWidth and originalHeight next to
    the fields of [sample]. *)
Record DecodedSample : Type := MkDecodedSample {
  decoded : sample;
  originalWidth : Z;
  originalHeight : Z
}.

Section Inference.

Variable load_image : string → library_result (matrix Z).
Variable load_rgba_image : string → library_result (matrix rgb_alpha_pixel).

(** Modelled from the spec: [read_sample] with a downscaling factor,
    which [main] calls with four arguments and the header under src/
    does not define.  The spec: the reader decodes, downscales if
    configured, and originalWidth / originalHeight record the
    pre-downscale dimensions.  [downscaling] is the configured resize,
    [None] when none is configured. *)
Definition read_sample_downscaled (filenames : image_filenames)
    (anno_classes : list AnnoClass) (require_ground_truth : bool)
    (downscaling : option (matrix Z → matrix Z)) : outcome DecodedSample :=
  s ← read_sample load_image load_rgba_image filenames anno_classes require_ground_truth;
  let image := input_image s in
  let scaled := match downscaling with Some resize => resize image | None => image end in
  Returned (MkDecodedSample (with_input_image scaled s) (nc image) (nr image)).

Variable Parse : string → option json.
Variable double : Type.
Variable zero : double.
Variable stod : string → library_result double.

(** [annonet_infer_temp] and [annonet_infer] (annonet_infer.h) on the
    net and tiling parameters of the run: from the gains, the input
    image, the pre-sized probability image and the scratch buffers to
    the filled probability image and the buffers, unless it throws. *)
Variable annonet_infer_temp : Type.
Variable annonet_infer :
  list double → matrix Z → matrix Z → annonet_infer_temp →
  library_result (matrix Z * annonet_infer_temp).

(** What [dlib::resize_image] computes for the cell [(r, c)] of a
    [rows] x [cols] target. *)
Variable interpolate : matrix Z → Z → Z → Z → Z → Z.

(** [DLIB_CASSERT] throws [dlib::fatal_error]; its text names the
    failing expression. *)
Definition cassert_message : string := "anno_classes.size() >= 2".

(** From deserialising the bundle to the gains: everything [main] does
    before it starts a thread that can fail on the configuration. *)
Definition main_startup (anno_classes_json : string) (gain_options : list string)
    : outcome (list AnnoClass * list double) :=
  anno_classes ← parse_anno_classes Parse anno_classes_json;
  if Z.of_nat (length anno_classes) <? 2 then Thrown cassert_message
  else
    gains ← parse_class_specific_values zero stod gain_options
               (to_uint16 (Z.of_nat (length anno_classes)));
    if negb (length gains =? length anno_classes)%nat then Undefined
    else Returned (anno_classes, gains).

(** The state the main loop threads through: the scratch buffers and
    the queue of write requests (oldest first). *)
Record main_state : Type := MkMainState {
  temp : annonet_infer_temp;
  result_image_write_requests : list result_image_type
}.

(** One iteration of the main loop on the sample it dequeued. *)
Definition process_sample (gains : list double) (s : DecodedSample)
    : statement main_state :=
  λ st,
  if negb (String.eqb (error (decoded s)) "") then (Thrown (error (decoded s)), st)
  else
    let input_image := input_image (decoded s) in
    let name := image_filename (sample_image_filenames (decoded s))
                  +:+ "_probability_map.png" in
    let probability := set_size (nr input_image) (nc input_image) empty_matrix in
    match annonet_infer gains input_image probability (temp st) with
    | Value (probability', temp') =>
      let result_image :=
        MkResultImage name (originalWidth s) (originalHeight s) probability' in
      (Returned (),
       MkMainState temp' (result_image_write_requests st ++ [result_image]))
    | Exception what => (Thrown what, st)
    end.

(** The main loop over the samples in the order in which it dequeues
    them from [full_image_read_results]. *)
Definition main_loop (gains : list double) (dequeued : list DecodedSample)
    : statement main_state :=
  for_each (process_sample gains) dequeued.

(** [dlib::resize_image(in, out)]: [out] keeps its size. *)
Definition resize_image (in_image out_image : matrix Z) : matrix Z :=
  Matrix (nr out_image) (nc out_image)
    (interpolate in_image (nr out_image) (nc out_image)).

(** One iteration of a writer thread: the file name and the image it
    hands to [save_png]. *)
Definition write_result_image (result_image : result_image_type) : string * matrix Z :=
  let resized_result_image :=
    set_size (original_height result_image) (original_width result_image) empty_matrix in
  (filename result_image,
   resize_image (probability_image result_image) resized_result_image).

(** A run of [main] after option parsing: the threads it started, how
    the [try] block ended, and the write requests it enqueued. *)
Record run : Type := MkRun {
  full_image_readers : Z;
  result_image_writers : Z;
  completion : outcome ();
  write_requests : list result_image_type
}.

Definition main (anno_classes_json : string) (gain_options : list string)
    (reader_thread_count writer_thread_count : Z)
    (dequeued : list DecodedSample) (temp0 : annonet_infer_temp) : run :=
  match main_startup anno_classes_json gain_options with
  | Returned (anno_classes, gains) =>
    let full_image_reader_count := Z.max 1 reader_thread_count in
    let result_image_writer_count := Z.max 1 writer_thread_count in
    let '(o, st) := main_loop gains dequeued (MkMainState temp0 []) in
    MkRun full_image_reader_count result_image_writer_count o
      (result_image_write_requests st)
  | Thrown what => MkRun 0 0 (Thrown what) []
  | Undefined => MkRun 0 0 Undefined []
  end.

End Inference.

Global Arguments main_startup Parse {double} zero stod _ _.
Global Arguments MkMainState {annonet_infer_temp} _ _.
Global Arguments temp {annonet_infer_temp} _.
Global Arguments result_image_write_requests {annonet_infer_temp} _.
Global Arguments process_sample {double annonet_infer_temp} annonet_infer gains s _.
Global Arguments main_loop {double annonet_infer_temp} annonet_infer gains dequeued _.
Global Arguments main Parse {double} zero stod {annonet_infer_temp} annonet_infer _ _ _ _ _ _.

(** ** find_image_files (annonet.h) *)

(** [dlib::file]: the name inside its directory and the full path. *)
Record file : Type := MkFile { name : string; full_name : string }.

(** [dlib::match_ending(ending)(f)]: [f.name()] is at least as long as
    [ending] and its last characters are those of [ending]. *)
Definition match_ending (ending : string) (f : file) : bool :=
  if str_length (name f) <? str_length ending then false
  else
    String.eqb
      (substr (name f) (str_length (name f) - str_length ending) (str_length ending))
      ending.

(** The predicate handed to [get_files_in_directory_tree]. *)
Definition is_image_file (f : file) : bool :=
  if match_ending "_mask.png" f then false
  else if match_ending "_result.png" f then false
  else match_ending ".jpeg" f || match_ending ".jpg" f || match_ending ".png" f.

Section Files.

(** The files dlib finds below a directory, unless the directory cannot
    be listed, and whether [std::ifstream] can open a file. *)
Variable directory_tree : string → library_result (list file).
Variable file_exists : string → bool.

Definition get_files_in_directory_tree (top_of_tree : string)
    (add_file : file → bool) : outcome (list file) :=
  found ← call (directory_tree top_of_tree);
  Returned (filter (λ f, add_file f) found).

(** One iteration of the loop over the files: the results and the lines
    written to [std::cout] so far, and after it.  A [dlib::file] converts
    to its full name.  The warning prints [image_filenames.label_filename],
    which is not set on that path. *)
Definition add_image_file (require_ground_truth : bool)
    (st : list image_filenames * list string) (f : file)
    : list image_filenames * list string :=
  let '(results, console) := st in
  let label := full_name f +:+ "_mask.png" in
  let label_file_exists := file_exists label in
  let filenames :=
    MkImageFilenames (full_name f) (if label_file_exists then label else "") in
  if label_file_exists || negb require_ground_truth then
    (results ++ [filenames], console ++ ["Added file " +:+ image_filename filenames])
  else if require_ground_truth then
    (results, console ++ ["Warning: unable to open " +:+ label_filename filenames])
  else (results, console).

(** The results, and what was written to [std::cout]. *)
Definition find_image_files (anno_data_folder : string) (require_ground_truth : bool)
    : outcome (list image_filenames * list string) :=
  files ← get_files_in_directory_tree anno_data_folder is_image_file;
  Returned (foldl (add_image_file require_ground_truth) ([], []) files).

End Files.

(** ** index_label_image_to_rgba_label_image (annonet_infer_main.cpp) *)

(** [m.set_size(rows, cols)] on a matrix of pixels; the new cells are
    shown as zero pixels until they are assigned. *)
Definition set_size_rgba (rows cols : Z) (m : matrix rgb_alpha_pixel)
    : matrix rgb_alpha_pixel :=
  Matrix rows cols (λ _ _, RgbAlphaPixel 0 0 0 0).

(** The body of the inner loop at row [r], column [c]. *)
Definition encode_pixel (index_label_image : matrix Z) (anno_classes : list AnnoClass)
    (r c : Z) : statement (matrix rgb_alpha_pixel) :=
  λ rgba_label_image,
  match index_label_to_rgba_label (cell index_label_image r c) anno_classes with
  | Returned rgba => (Returned (), assign rgba_label_image r c rgba)
  | Thrown what => (Thrown what, rgba_label_image)
  | Undefined => (Undefined, rgba_label_image)
  end.

Definition index_label_image_to_rgba_label_image (index_label_image : matrix Z)
    (anno_classes : list AnnoClass) : statement (matrix rgb_alpha_pixel) :=
  λ rgba_label_image,
  let nr := nr index_label_image in
  let nc := nc index_label_image in
  for_range nr (λ r, for_range nc (λ c,
    encode_pixel index_label_image anno_classes r c))
    (set_size_rgba nr nc rgba_label_image).

(** ** Vocabulary of the properties, and inputs to run the code on *)

(** The colour components an array entry carries, when it has them. *)
Definition color_of (entry : json) : option (Z * Z * Z * Z) :=
  match entry with
  | JObject members =>
    match find_member members "color" with
    | Some (JObject components) =>
      match find_member components "red", find_member components "green",
            find_member components "blue", find_member components "alpha" with
      | Some (JInt r), Some (JInt g), Some (JInt b), Some (JInt a) => Some (r, g, b, a)
      | _, _, _, _ => None
      end
    | _ => None
    end
  | _ => None
  end.

(** An entry whose colour is the reserved (0,0,0,0). *)
Definition reserved_entry (entry : json) : Prop := color_of entry = Some (0, 0, 0, 0).

(** An entry of the schema: an object with a string [name] and a [color]
    of four integers. *)
Definition class_entry (entry : json) : bool :=
  match entry with
  | JObject members =>
    match find_member members "name", color_of entry with
    | Some (JString _), Some (r, g, b, a) => is_int r && is_int g && is_int b && is_int a
    | _, _ => false
    end
  | _ => false
  end.

Definition reserved_message : string :=
  "Unexpected anno classes json content - rgba (0, 0, 0, 0) is reserved for pixels to be ignored".

(** Documents for running the parser: an entry of the schema and a
    document around a list of entries. *)
Definition entry_of (name : string) (r g b a : Z) : json :=
  JObject [("name", JString name);
           ("color", JObject [("red", JInt r); ("green", JInt g);
                              ("blue", JInt b); ("alpha", JInt a)])].

Definition document_of (items : list json) : json :=
  JObject [("anno_classes", JArray items)].

(** A specification string in which a colon separates a non-empty index
    part from a non-empty value part. *)
Definition separated (s : string) : Prop :=
  ∃ index_part value_part,
    s = index_part +:+ String ":"%char value_part ∧
    index_part ≠ "" ∧ value_part ≠ "".

(** What makes a specification unacceptable for [class_count] classes. *)
Definition rejected {double} (stod : string → library_result double)
    (class_count : Z) (s : string) : Prop :=
  ¬ separated s ∨
  ∃ v, parse_class_specific_value stod s = Returned v ∧ class_count ≤ class_index v.

(** A file system with a 2 x 2 image [a.png] whose mask [a.png_mask.png]
    is 2 rows by 3 columns, every mask pixel in the colour of the built-in
    class 0; any other file cannot be opened. *)
Definition load_image_example (name : string) : library_result (matrix Z) :=
  if String.eqb name "a.png" then Value (Matrix 2 2 (λ _ _, 128))
  else Exception ("Unable to open file " +:+ name).

Definition load_rgba_image_example (name : string)
    : library_result (matrix rgb_alpha_pixel) :=
  if String.eqb name "a.png_mask.png"
  then Value (Matrix 2 3 (λ _ _, RgbAlphaPixel 0 255 0 64))
  else Exception ("Unable to open file " +:+ name).

(** The file a sample's result is written to. *)
Definition output_name (s : DecodedSample) : string :=
  image_filename (sample_image_filenames (decoded s)) +:+ "_probability_map.png".

(** The cells of a [rows] x [cols] matrix in the order of the two nested
    loops: row by row, each row left to right. *)
Definition raster (rows cols : Z) : list (Z * Z) :=
  r ← seqZ 0 rows; (λ c, (r, c)) <$> seqZ 0 cols.

(** A colour that [rgba_label_to_index_label] has an answer for: the
    reserved one, or the colour key of some class. *)
Definition known_colour (anno_classes : list AnnoClass) (rgba : rgb_alpha_pixel) : Prop :=
  rgba = rgba_ignore_label ∨ rgba ∈ rgba_label <$> anno_classes.

(** The points of [positions] whose cell of [labels] holds [label], as
    [dlib::point(column, row)]. *)
Definition points_labelled (labels : matrix Z) (label : Z) (positions : list (Z * Z))
    : list point :=
  (λ p, Point p.2 p.1) <$> filter (λ p, cell labels p.1 p.2 = label) positions.

(** The class an array entry at position [k] stands for, when it is an
    object with a string [name] and a [color] of four integers. *)
Definition class_of_entry (k : Z) (entry : json) : option AnnoClass :=
  match entry with
  | JObject members =>
    match find_member members "name", color_of entry with
    | Some (JString name), Some (r, g, b, a) =>
      Some (AnnoClass_of k (rgb_alpha_pixel_of r g b a) name)
    | _, _ => None
    end
  | _ => None
  end.

(** A string ends with [ending]. *)
Definition ends_with (s ending : string) : Prop := ∃ front, s = front +:+ ending.

(** The label of the cell [(r, c)] of a label image in colours, the
    ignore label where the colour has none. *)
Definition label_at (rgba_label_image : matrix rgb_alpha_pixel)
    (anno_classes : list AnnoClass) (r c : Z) : Z :=
  match rgba_label_to_index_label (cell rgba_label_image r c) anno_classes with
  | Returned label => label
  | _ => label_to_ignore
  end.

(** A 2 x 2 label image with the colours of the two built-in classes in
    its first row and the reserved colour in its second. *)
Definition label_image_example : matrix rgb_alpha_pixel :=
  Matrix 2 2 (λ r c,
    if r =? 0 then (if c =? 0 then RgbAlphaPixel 0 255 0 64 else RgbAlphaPixel 255 0 0 128)
    else RgbAlphaPixel 0 0 0 0).

(** The colour key an array entry stands for: its four components
    converted to [unsigned char]. *)
Definition colour_key (entry : json) : option rgb_alpha_pixel :=
  match color_of entry with
  | Some (r, g, b, a) => Some (rgb_alpha_pixel_of r g b a)
  | None => None
  end.

(** The label file that goes with an image file, the pair
    [find_image_files] makes of the two, whether it keeps the pair, and
    the line it prints for the image file. *)
Definition mask_name (f : file) : string := full_name f +:+ "_mask.png".

Definition filenames_of (file_exists : string → bool) (f : file) : image_filenames :=
  MkImageFilenames (full_name f) (if file_exists (mask_name f) then mask_name f else "").

Definition kept (file_exists : string → bool) (require_ground_truth : bool)
    (f : file) : bool :=
  file_exists (mask_name f) || negb require_ground_truth.

Definition console_line (file_exists : string → bool) (require_ground_truth : bool)
    (f : file) : string :=
  if kept file_exists require_ground_truth f then "Added file " +:+ full_name f
  else "Warning: unable to open ".

(** A directory with an image that has a mask, an image that has none,
    a result image and a text file. *)
Definition files_example : list file :=
  [ MkFile "a.png" "/data/a.png"; MkFile "a.png_mask.png" "/data/a.png_mask.png";
    MkFile "b.jpg" "/data/b.jpg"; MkFile "b.jpg_result.png" "/data/b.jpg_result.png";
    MkFile "notes.txt" "/data/notes.txt" ].

Definition directory_tree_example (directory : string) : library_result (list file) :=
  if String.eqb directory "/data" then Value files_example
  else Exception ("directory not found: " +:+ directory).

Definition file_exists_example (path : string) : bool :=
  bool_decide (path ∈ full_name <$> files_example).

(** A string of decimal digits only. *)
Fixpoint only_digits (s : string) : bool :=
  match s with
  | EmptyString => true
  | String a rest =>
    match digit_value a with
    | Some _ => only_digits rest
    | None => false
    end
  end.

(** * Properties *)

(** ** Basic facts *)

Lemma pixel_eq_true (a b : rgb_alpha_pixel) : pixel_eq a b = true ↔ a = b.
Proof.
  destruct a as [r1 g1 b1 a1], b as [r2 g2 b2 a2]. unfold pixel_eq; simpl.
  rewrite !andb_true_iff, !Z.eqb_eq. split.
  - intros [[[-> ->] ->] ->]. reflexivity.
  - intros [= -> -> -> ->]. auto.
Qed.

Lemma pixel_eq_false (a b : rgb_alpha_pixel) : pixel_eq a b = false ↔ a ≠ b.
Proof.
  rewrite <- pixel_eq_true. destruct (pixel_eq a b); split; congruence.
Qed.

Lemma bind_returned {A B} (m : outcome A) (k : A → outcome B) (b : B) :
  m ≫= k = Returned b → ∃ a, m = Returned a ∧ k a = Returned b.
Proof. destruct m; simpl; intros H; try discriminate. eauto. Qed.

(** ** The built-in classes *)

(** C8: on the empty document [parse_anno_classes] returns exactly the
    two built-in classes; their indices are 0 and 1 and their colour keys
    differ from each other and from the reserved colour. *)
Theorem parse_anno_classes_empty_document (Parse : string → option json) :
  parse_anno_classes Parse "" =
    Returned [ MkAnnoClass 0 (RgbAlphaPixel 0 255 0 64) "clean";
               MkAnnoClass 1 (RgbAlphaPixel 255 0 0 128) "defect" ] ∧
  ∃ c0 c1,
    parse_anno_classes Parse "" = Returned [c0; c1] ∧
    index c0 = 0 ∧ index c1 = 1 ∧
    rgba_label c0 ≠ rgba_label c1 ∧
    rgba_label c0 ≠ rgba_ignore_label ∧
    rgba_label c1 ≠ rgba_ignore_label.
Proof.
  split; [reflexivity|].
  eexists _, _. split; [reflexivity|].
  repeat split; try reflexivity; apply pixel_eq_false; reflexivity.
Qed.

(** ** Colour to index and back *)

Lemma pixel_eq_refl (a : rgb_alpha_pixel) : pixel_eq a a = true.
Proof. by apply pixel_eq_true. Qed.

(** With distinct colour keys the search finds the class itself. *)
Lemma find_class_index_at (anno_classes : list AnnoClass) (k : nat) (c : AnnoClass) :
  NoDup (rgba_label <$> anno_classes) →
  anno_classes !! k = Some c →
  find_class_index (rgba_label c) anno_classes = Some (index c).
Proof.
  revert k. induction anno_classes as [|a rest IH]; intros k Hnd Hk; [done|].
  rewrite fmap_cons in Hnd. apply NoDup_cons in Hnd as [Hfresh Hnd].
  destruct k as [|k]; simpl in *.
  - injection Hk as ->. by rewrite pixel_eq_refl.
  - destruct (pixel_eq (rgba_label a) (rgba_label c)) eqn:Heq.
    + apply pixel_eq_true in Heq. exfalso. apply Hfresh. rewrite Heq.
      apply list_elem_of_fmap. exists c. split; [done|].
      by apply list_elem_of_lookup_2 with k.
    + by apply IH with k.
Qed.

(** C10: for a class list with pairwise distinct colour keys, none of
    them the reserved colour, whose k-th element has index k, turning a
    class index below the class count into its colour and that colour
    back into an index gives the index again. *)
Theorem index_rgba_round_trip (anno_classes : list AnnoClass) (i : Z) :
  NoDup (rgba_label <$> anno_classes) →
  rgba_ignore_label ∉ rgba_label <$> anno_classes →
  (∀ k c, anno_classes !! k = Some c → index c = Z.of_nat k) →
  0 ≤ i < Z.of_nat (length anno_classes) →
  index_label_to_rgba_label i anno_classes
    ≫= (λ rgba, rgba_label_to_index_label rgba anno_classes) = Returned i.
Proof.
  intros Hnd Hign Hidx Hi.
  destruct (lookup_lt_is_Some_2 anno_classes (Z.to_nat i)) as [c Hc]; [lia|].
  assert (index c = i) as Hci by (rewrite (Hidx _ _ Hc); lia).
  unfold index_label_to_rgba_label. rewrite Hc, Hci, Z.eqb_refl. simpl.
  unfold rgba_label_to_index_label.
  assert (pixel_eq (rgba_label c) rgba_ignore_label = false) as ->.
  { apply pixel_eq_false. intros Heq. apply Hign. rewrite <- Heq.
    apply list_elem_of_fmap. exists c. split; [done|].
    by apply list_elem_of_lookup_2 with (Z.to_nat i). }
  by rewrite (find_class_index_at _ _ _ Hnd Hc), Hci.
Qed.

Lemma index_rgba_round_trip_witness :
  index_label_to_rgba_label 1 default_anno_classes
    ≫= (λ rgba, rgba_label_to_index_label rgba default_anno_classes) = Returned 1.
Proof.
  apply index_rgba_round_trip.
  - apply (bool_decide_unpack _). vm_compute. reflexivity.
  - apply (bool_decide_unpack _). vm_compute. reflexivity.
  - intros [|[|k]] c; simpl; intros [= <-] || intros [=]; reflexivity.
  - simpl. lia.
Defined.

(** ** The class-definition document *)

Ltac case_outcome H :=
  repeat match type of H with
  | context [match ?x with _ => _ end] =>
    destruct x eqn:?; simpl in H; try discriminate H
  end.

Lemma parse_anno_class_returned (i : Z) (entry : json) (c : AnnoClass) :
  parse_anno_class i entry = Returned c →
  index c = to_uint16 i ∧ rgba_label c ≠ rgba_ignore_label.
Proof.
  unfold parse_anno_class, FindMember, GetInt, GetString, mbind, outcome_bind.
  intros H. case_outcome H. injection H as <-. split; [done|].
  by apply pixel_eq_false.
Qed.

Lemma color_of_inv (entry : json) (r g b a : Z) :
  color_of entry = Some (r, g, b, a) →
  ∃ members components,
    entry = JObject members ∧
    find_member members "color" = Some (JObject components) ∧
    find_member components "red" = Some (JInt r) ∧
    find_member components "green" = Some (JInt g) ∧
    find_member components "blue" = Some (JInt b) ∧
    find_member components "alpha" = Some (JInt a).
Proof.
  unfold color_of. intros H. case_outcome H. injection H as <- <- <- <-.
  subst. by eexists _, _.
Qed.

Lemma parse_anno_class_reserved (i : Z) (entry : json) :
  reserved_entry entry → ∃ what, parse_anno_class i entry = Thrown what.
Proof.
  intros H. apply color_of_inv in H as (ms & cs & -> & Hc & Hr & Hg & Hb & Ha).
  unfold parse_anno_class. simpl. rewrite Hc.
  destruct (find_member ms "name"); [|eexists; reflexivity].
  simpl. rewrite Hr, Hg, Hb, Ha. simpl. eexists; reflexivity.
Qed.

Lemma parse_anno_class_schema (i : Z) (entry : json) :
  class_entry entry = true →
  (∃ c, parse_anno_class i entry = Returned c) ∨
  parse_anno_class i entry = Thrown reserved_message.
Proof.
  unfold class_entry. intros H.
  destruct entry as [| | | | |?|ms]; try discriminate H.
  destruct (find_member ms "name") as [[| | | |name| |]|] eqn:Hname; try discriminate H.
  destruct (color_of (JObject ms)) as [[[[r g] b] a]|] eqn:Hcolor; [|discriminate H].
  apply color_of_inv in Hcolor as (ms' & cs & [= <-] & Hc & Hr & Hg & Hb & Ha).
  apply andb_prop in H as [H Hia]. apply andb_prop in H as [H Hib].
  apply andb_prop in H as [Hir Hig].
  unfold parse_anno_class. simpl. rewrite Hname, Hc. simpl.
  rewrite Hr, Hg, Hb, Ha. simpl. rewrite Hir; simpl. rewrite Hig; simpl.
  rewrite Hib; simpl. rewrite Hia; simpl.
  destruct (pixel_eq _ _); [by right|left; eexists; reflexivity].
Qed.

(** What the loop returns: the vector it started from, followed by one
    class per entry, the k-th of them parsed at position [i + k]. *)
Lemma parse_anno_classes_loop_returned (items : list json) :
  ∀ (i : Z) (acc cs : list AnnoClass),
  parse_anno_classes_loop i items acc = Returned cs →
  ∃ new, cs = acc ++ new ∧ length new = length items ∧
    ∀ (k : nat) c, new !! k = Some c →
      ∃ entry, items !! k = Some entry ∧
               parse_anno_class (i + Z.of_nat k) entry = Returned c.
Proof.
  induction items as [|entry rest IH]; intros i acc cs H; simpl in H.
  - injection H as <-. exists []. rewrite app_nil_r. by repeat split.
  - apply bind_returned in H as (c & Hc & H).
    apply IH in H as (new & -> & Hlen & Hnew).
    exists (c :: new). rewrite <- app_assoc. repeat split; [simpl; lia|].
    intros [|k] c' Hk; simpl in Hk.
    + injection Hk as <-. exists entry. by rewrite Z.add_0_r.
    + apply Hnew in Hk as (e & He & Hp). exists e. split; [done|].
      by replace (i + Z.of_nat (S k)) with (i + 1 + Z.of_nat k) by lia.
Qed.

Lemma parse_anno_classes_loop_reserved (items : list json) :
  ∀ (i : Z) (acc : list AnnoClass),
  Exists reserved_entry items →
  ∀ cs, parse_anno_classes_loop i items acc ≠ Returned cs.
Proof.
  induction items as [|entry rest IH]; intros i acc Hex cs H.
  - inversion Hex.
  - simpl in H. apply bind_returned in H as (c & Hc & H).
    apply Exists_cons in Hex as [Hres|Hex].
    + destruct (parse_anno_class_reserved i entry Hres) as [what Hw]. congruence.
    + by apply IH in H.
Qed.

Lemma parse_anno_classes_loop_schema (items : list json) :
  ∀ (i : Z) (acc : list AnnoClass),
  Forall (λ entry, class_entry entry = true) items →
  (∃ cs, parse_anno_classes_loop i items acc = Returned cs) ∨
  parse_anno_classes_loop i items acc = Thrown reserved_message.
Proof.
  induction items as [|entry rest IH]; intros i acc Hall; simpl.
  - left. eexists; reflexivity.
  - apply Forall_cons in Hall as [He Hall].
    destruct (parse_anno_class_schema i entry He) as [[c ->]| ->]; simpl; [|by right].
    by apply IH.
Qed.

(** C7: a class-definition document whose [anno_classes] array has an
    entry with the reserved colour (0,0,0,0) is never accepted, and when
    the entries follow the schema the call throws the error that names
    the reserved colour. *)
Theorem parse_anno_classes_reserved_color (Parse : string → option json)
    (json_text : string) (members : list (string * json)) (items : list json) :
  json_text ≠ "" →
  Parse json_text = Some (JObject members) →
  find_member members "anno_classes" = Some (JArray items) →
  Exists reserved_entry items →
  (∀ cs, parse_anno_classes Parse json_text ≠ Returned cs) ∧
  (Forall (λ entry, class_entry entry = true) items →
   parse_anno_classes Parse json_text = Thrown reserved_message).
Proof.
  intros Hne Hparse Harr Hex. unfold parse_anno_classes.
  destruct (String.eqb_spec json_text "") as [->|_]; [done|].
  rewrite Hparse, Harr. split.
  - by apply parse_anno_classes_loop_reserved.
  - intros Hall.
    destruct (parse_anno_classes_loop_schema items 0 [] Hall) as [[cs Hcs]|H]; [|done].
    by apply parse_anno_classes_loop_reserved in Hcs.
Qed.

Lemma parse_anno_classes_reserved_color_witness :
  let items := [entry_of "clean" 0 255 0 64; entry_of "void" 0 0 0 0] in
  let Parse := λ _ : string, Some (document_of items) in
  (∀ cs, parse_anno_classes Parse "{'anno_classes': [clean, void]}" ≠ Returned cs) ∧
  (Forall (λ entry, class_entry entry = true) items →
   parse_anno_classes Parse "{'anno_classes': [clean, void]}" = Thrown reserved_message).
Proof.
  intros items Parse.
  apply (parse_anno_classes_reserved_color Parse _
           [("anno_classes", JArray items)] items).
  - discriminate.
  - reflexivity.
  - reflexivity.
  - right. left. reflexivity.
Defined.

(** ** Indices of the parsed classes *)

(** Every class of an accepted document carries its position reduced to
    16 bits, and no class has the reserved colour. *)
Lemma parse_anno_classes_positions (Parse : string → option json)
    (json_text : string) (cs : list AnnoClass) :
  parse_anno_classes Parse json_text = Returned cs →
  ∀ (k : nat) c, cs !! k = Some c →
    index c = to_uint16 (Z.of_nat k) ∧ rgba_label c ≠ rgba_ignore_label.
Proof.
  unfold parse_anno_classes. intros H k c Hk.
  destruct (String.eqb json_text "").
  - injection H as <-.
    destruct k as [|[|k]]; simpl in Hk; try discriminate Hk;
      injection Hk as <-; (split; [reflexivity|by apply pixel_eq_false]).
  - case_outcome H.
    apply parse_anno_classes_loop_returned in H as (new & -> & _ & Hnew).
    apply Hnew in Hk as (entry & _ & Hp).
    by apply parse_anno_class_returned in Hp.
Qed.

(** C9, as the code has it: an accepted class-definition input gives
    classes whose k-th element has index k as long as there are at most
    65536 of them; the reserved colour is mapped to the ignore sentinel,
    and the sentinel differs from every class index as long as there are
    at most 65535 classes. *)
Theorem parse_anno_classes_dense (Parse : string → option json)
    (json_text : string) (cs : list AnnoClass) :
  parse_anno_classes Parse json_text = Returned cs →
  (Z.of_nat (length cs) ≤ 65536 →
   ∀ (k : nat) c, cs !! k = Some c → index c = Z.of_nat k) ∧
  rgba_label_to_index_label rgba_ignore_label cs = Returned label_to_ignore ∧
  (Z.of_nat (length cs) ≤ 65535 →
   ∀ c, c ∈ cs → index c ≠ label_to_ignore).
Proof.
  intros H. split; [|split].
  - intros Hlen k c Hk.
    destruct (parse_anno_classes_positions _ _ _ H k c Hk) as [-> _].
    apply lookup_lt_Some in Hk. unfold to_uint16. apply Z.mod_small. lia.
  - reflexivity.
  - intros Hlen c Hc. apply list_elem_of_lookup in Hc as [k Hk].
    destruct (parse_anno_classes_positions _ _ _ H k c Hk) as [-> _].
    apply lookup_lt_Some in Hk. unfold to_uint16, label_to_ignore.
    rewrite Z.mod_small by lia. lia.
Qed.

Lemma parse_anno_classes_dense_witness :
  let Parse := λ _ : string,
    Some (document_of [entry_of "clean" 0 255 0 64; entry_of "defect" 255 0 0 128;
                       entry_of "scratch" 0 0 255 128]) in
  ∃ cs, parse_anno_classes Parse "{'anno_classes': [clean, defect, scratch]}" = Returned cs ∧
    (Z.of_nat (length cs) ≤ 65536 →
     ∀ (k : nat) c, cs !! k = Some c → index c = Z.of_nat k) ∧
    rgba_label_to_index_label rgba_ignore_label cs = Returned label_to_ignore ∧
    (Z.of_nat (length cs) ≤ 65535 →
     ∀ c, c ∈ cs → index c ≠ label_to_ignore).
Proof.
  intros Parse. eexists. split; [reflexivity|].
  apply (parse_anno_classes_dense Parse "{'anno_classes': [clean, defect, scratch]}").
  reflexivity.
Defined.

(** The loop on [n] copies of one entry that parses at every position. *)
Lemma parse_anno_classes_loop_replicate (entry : json) (make : Z → AnnoClass) :
  (∀ i, parse_anno_class i entry = Returned (make i)) →
  ∀ (n : nat) (i : Z) (acc : list AnnoClass),
  parse_anno_classes_loop i (replicate n entry) acc =
    Returned (acc ++ (make <$> seqZ i (Z.of_nat n))).
Proof.
  intros Hentry. induction n as [|n IH]; intros i acc.
  - simpl. by rewrite app_nil_r.
  - rewrite seqZ_cons by lia.
    replace (Z.pred (Z.of_nat (S n))) with (Z.of_nat n) by lia.
    replace (Z.succ i) with (i + 1) by lia.
    cbn [replicate parse_anno_classes_loop].
    rewrite Hentry. simpl. by rewrite IH, <- app_assoc.
Qed.

(** C9 as stated fails: a document with 65537 classes is accepted; its
    class at position 65536 has index 0 and its class at position 65535
    has the ignore sentinel as index. *)
Lemma parse_anno_classes_index_wraps :
  let Parse := λ _ : string,
    Some (document_of (replicate (Z.to_nat 65537) (entry_of "c" 1 0 0 255))) in
  ∃ cs, parse_anno_classes Parse "{'anno_classes': [c, ... 65537 times]}" = Returned cs ∧
    (∃ c, cs !! Z.to_nat 65536 = Some c ∧ index c = 0) ∧
    (∃ c, c ∈ cs ∧ index c = label_to_ignore) ∧
    ¬ (∀ (k : nat) c, cs !! k = Some c → index c = Z.of_nat k) ∧
    ¬ (∀ c, c ∈ cs → index c ≠ label_to_ignore).
Proof.
  intros Parse.
  set (make := λ i, AnnoClass_of i (rgb_alpha_pixel_of 1 0 0 255) "c").
  assert (∀ j, 0 ≤ j < 65537 →
    (make <$> seqZ 0 (Z.of_nat (Z.to_nat 65537))) !! Z.to_nat j = Some (make j)) as Hat.
  { intros j Hj. rewrite list_lookup_fmap, lookup_seqZ_lt by lia.
    simpl. f_equal. f_equal. lia. }
  eexists. split.
  { unfold parse_anno_classes, Parse, document_of.
    cbn [String.eqb Ascii.eqb Bool.eqb find_member].
    apply (parse_anno_classes_loop_replicate _ make). reflexivity. }
  rewrite app_nil_l.
  assert (index (make 65536) = 0) as H0 by reflexivity.
  assert (index (make 65535) = label_to_ignore) as H1 by reflexivity.
  split; [|split; [|split]].
  - exists (make 65536). split; [apply Hat; lia|done].
  - exists (make 65535). split; [|done].
    apply list_elem_of_lookup. exists (Z.to_nat 65535). apply Hat. lia.
  - intros Hdense. specialize (Hdense _ _ (Hat 65536 ltac:(lia))).
    rewrite H0 in Hdense. lia.
  - intros Hno. apply (Hno (make 65535)); [|done].
    apply list_elem_of_lookup. exists (Z.to_nat 65535). apply Hat. lia.
Qed.

(** ** Gain specifications *)

Lemma str_length_append (s t : string) :
  str_length (s +:+ t) = str_length s + str_length t.
Proof.
  unfold str_length. induction s as [|a s IH]; simpl; [done|]. lia.
Qed.

(** [find] answers [npos] or the position of a [c] that is in [s]. *)
Lemma find_from_found (c : Ascii.ascii) (s : string) :
  ∀ pos, find_from c s pos = npos ∨
    ∃ before after, s = before +:+ String c after ∧
                    find_from c s pos = pos + str_length before.
Proof.
  induction s as [|a s IH]; intros pos; simpl; [by left|].
  destruct (Ascii.eqb_spec a c) as [->|_].
  - right. exists "", s. split; [done|]. unfold str_length. simpl. lia.
  - destruct (IH (pos + 1)) as [->|(before & after & -> & ->)]; [by left|].
    right. exists (String a before), after. split; [done|].
    unfold str_length. simpl. lia.
Qed.

(** A string that passes the format check is [separated]. *)
Lemma format_check_separated (s : string) :
  let colon_pos := find s ":"%char in
  (colon_pos =? npos) || (colon_pos <? 1) ||
    (colon_pos >=? to_size_t (str_length s - 1)) = false →
  separated s.
Proof.
  intros colon_pos Hcheck.
  apply orb_false_elim in Hcheck as [Hcheck Hlast].
  apply orb_false_elim in Hcheck as [Hnpos Hfirst].
  apply Z.eqb_neq in Hnpos. apply Z.ltb_ge in Hfirst.
  rewrite Z.geb_leb in Hlast. apply Z.leb_gt in Hlast.
  destruct (find_from_found ":"%char s 0) as [Hno|(before & after & Hs & Hpos)];
    [done|].
  fold (find s ":"%char) in Hpos. fold colon_pos in Hpos.
  exists before, after. split; [done|]. split.
  - intros ->. unfold str_length in Hpos. simpl in Hpos. lia.
  - intros ->. rewrite Hs, str_length_append in Hlast.
    unfold to_size_t in Hlast.
    replace (str_length before + str_length (String ":"%char "") - 1)
      with colon_pos in Hlast by (unfold str_length in *; simpl; lia).
    pose proof (Z.mod_le colon_pos (2 ^ 64)). lia.
Qed.

Section GainProperties.

Context {double : Type} (zero : double) (stod : string → library_result double).

Lemma parse_class_specific_value_format (s : string) :
  ¬ separated s → parse_class_specific_value stod s = Thrown format_error.
Proof.
  intros Hsep. unfold parse_class_specific_value.
  destruct (_ || _ || _) eqn:Hcheck; [done|].
  by apply format_check_separated in Hcheck.
Qed.

Lemma stoul_defined (s : string) : stoul s ≠ Undefined.
Proof.
  unfold stoul. destruct (match skip_spaces s with "" => _ | _ => _ end) as [neg s2].
  destruct (read_digits s2 None); [|done]. by destruct (ULONG_MAX <? _).
Qed.

Lemma parse_class_specific_value_defined (s : string) :
  parse_class_specific_value stod s ≠ Undefined.
Proof.
  unfold parse_class_specific_value. destruct (_ || _ || _); [done|].
  pose proof (stoul_defined (substr s 0 (find s ":"%char))) as Hu.
  destruct (stoul _); simpl; [|done|done].
  by destruct (stod _).
Qed.

Lemma parse_class_specific_value_index (s : string) v :
  parse_class_specific_value stod s = Returned v → 0 ≤ class_index v < 2 ^ 16.
Proof.
  unfold parse_class_specific_value. destruct (_ || _ || _); [done|].
  intros H. apply bind_returned in H as (i & _ & H).
  apply bind_returned in H as (d & _ & [= <-]). simpl.
  apply Z.mod_pos_bound. lia.
Qed.

(** A rejected specification anywhere in the list makes the loop throw. *)
Lemma parse_class_specific_values_loop_rejected (strs : list string) (n : Z) :
  Exists (rejected stod n) strs →
  ∀ vals, ∃ what, parse_class_specific_values_loop stod strs n vals = Thrown what.
Proof.
  induction strs as [|s rest IH]; intros Hex vals; [inversion Hex|].
  simpl. pose proof (parse_class_specific_value_defined s) as Hdef.
  destruct (parse_class_specific_value stod s) as [v|what|] eqn:Hs; simpl;
    [|by eexists|done].
  destruct (class_index v >=? n) eqn:Hge; [by eexists|].
  rewrite Z.geb_leb in Hge. apply Z.leb_gt in Hge.
  apply Exists_cons in Hex as [[Hsep|(v' & Hv' & Hle)]|Hex].
  - apply parse_class_specific_value_format in Hsep. congruence.
  - rewrite Hs in Hv'. injection Hv' as <-. lia.
  - by apply IH.
Qed.

(** On well-formed specifications with indices in range the loop
    performs the assignments in order. *)
Lemma parse_class_specific_values_loop_assigns (n : Z) (strs : list string)
    (vs : list (class_specific_value_type double)) :
  Forall2 (λ s v, parse_class_specific_value stod s = Returned v) strs vs →
  Forall (λ v, class_index v < n) vs →
  ∀ vals, parse_class_specific_values_loop stod strs n vals =
    Returned (foldl (λ acc v, <[Z.to_nat (class_index v) := value v]> acc) vals vs).
Proof.
  induction 1 as [|s v strs vs Hs _ IH]; intros Hrange vals; [done|].
  apply Forall_cons in Hrange as [Hv Hrange].
  simpl. rewrite Hs. simpl.
  rewrite Z.geb_leb. destruct (Z.leb_spec n (class_index v)); [lia|].
  by apply IH.
Qed.

Lemma assignments_length (vs : list (class_specific_value_type double)) :
  ∀ vals : list double, length (foldl (λ acc v, <[Z.to_nat (class_index v) := value v]> acc) vals vs)
          = length vals.
Proof.
  induction vs as [|v vs IH]; intros vals; simpl; [done|].
  by rewrite IH, length_insert.
Qed.

Lemma assignments_untouched (i : nat) (vs : list (class_specific_value_type double)) :
  Forall (λ w, Z.to_nat (class_index w) ≠ i) vs →
  ∀ vals : list double,
    foldl (λ acc v, <[Z.to_nat (class_index v) := value v]> acc) vals vs !! i
          = vals !! i.
Proof.
  induction vs as [|v vs IH]; intros Hall vals; simpl; [done|].
  apply Forall_cons in Hall as [Hv Hall].
  rewrite IH by done. by apply list_lookup_insert_ne.
Qed.

End GainProperties.

Lemma parsed_indices_nonneg {double} (stod : string → library_result double)
    (strs : list string) (vs : list (class_specific_value_type double)) :
  Forall2 (λ s v, parse_class_specific_value stod s = Returned v) strs vs →
  Forall (λ v, 0 ≤ class_index v) vs.
Proof.
  induction 1 as [|s v strs vs Hs _ IH]; constructor; [|done].
  by apply parse_class_specific_value_index in Hs as [? _].
Qed.

(** C5, as the code has it: for a class count n and well-formed gain
    specifications whose indices are all below n, the result has exactly
    n entries; an index named by some specification holds the value of
    the last specification that names it, and an index that no
    specification names holds zero. *)
Theorem parse_class_specific_values_last_wins {double} (zero : double)
    (stod : string → library_result double) (n : Z) (strs : list string)
    (vs : list (class_specific_value_type double)) :
  0 ≤ n →
  Forall2 (λ s v, parse_class_specific_value stod s = Returned v) strs vs →
  Forall (λ v, class_index v < n) vs →
  ∃ vec, parse_class_specific_values zero stod strs n = Returned vec ∧
    Z.of_nat (length vec) = n ∧
    (∀ before v after, vs = before ++ v :: after →
       Forall (λ w, class_index w ≠ class_index v) after →
       vec !! Z.to_nat (class_index v) = Some (value v)) ∧
    (∀ i, 0 ≤ i < n → Forall (λ w, class_index w ≠ i) vs →
       vec !! Z.to_nat i = Some zero).
Proof.
  intros Hn Hparse Hrange.
  pose proof (parsed_indices_nonneg stod strs vs Hparse) as Hnonneg.
  eexists. split; [by apply parse_class_specific_values_loop_assigns|].
  split; [|split].
  - rewrite assignments_length, length_replicate. lia.
  - intros before v after -> Hafter.
    apply Forall_app in Hnonneg as [_ Hnonneg].
    apply Forall_cons in Hnonneg as [Hv Hnonneg].
    apply Forall_app in Hrange as [_ Hrange].
    apply Forall_cons in Hrange as [Hvn _].
    rewrite foldl_app. simpl. rewrite assignments_untouched.
    + apply list_lookup_insert_eq.
      rewrite assignments_length, length_replicate. lia.
    + rewrite Forall_forall in Hafter, Hnonneg. apply Forall_forall. intros w Hw.
      specialize (Hafter w Hw). specialize (Hnonneg w Hw). lia.
  - intros i Hi Hnone. rewrite assignments_untouched.
    + apply lookup_replicate_2. lia.
    + rewrite Forall_forall in Hnone, Hnonneg. apply Forall_forall. intros w Hw.
      specialize (Hnone w Hw). specialize (Hnonneg w Hw). lia.
Qed.

Lemma parse_class_specific_values_last_wins_witness :
  let strs := ["1:0.5"; "0:-0.25"; "1:0.7"] in
  let vs := [ MkClassSpecificValue 1 (QArith_base.Qmake 5 10);
              MkClassSpecificValue 0 (QArith_base.Qmake (-25) 100);
              MkClassSpecificValue 1 (QArith_base.Qmake 7 10) ] in
  ∃ vec, parse_class_specific_values (QArith_base.Qmake 0 1) stod_decimal strs 3
           = Returned vec ∧
    Z.of_nat (length vec) = 3 ∧
    (∀ before v after, vs = before ++ v :: after →
       Forall (λ w, class_index w ≠ class_index v) after →
       vec !! Z.to_nat (class_index v) = Some (value v)) ∧
    (∀ i, 0 ≤ i < 3 → Forall (λ w, class_index w ≠ i) vs →
       vec !! Z.to_nat i = Some (QArith_base.Qmake 0 1)).
Proof.
  intros strs vs.
  apply (parse_class_specific_values_last_wins _ stod_decimal 3 strs vs).
  - lia.
  - repeat constructor.
  - repeat constructor.
Defined.

(** C5 as stated fails when two specifications name the same index: both
    are well formed and in range, and the entry holds the later value,
    not the earlier one. *)
Lemma parse_class_specific_values_repeated_index :
  let strs := ["1:0.5"; "1:0.7"] in
  let vs := [ MkClassSpecificValue 1 (QArith_base.Qmake 5 10);
              MkClassSpecificValue 1 (QArith_base.Qmake 7 10) ] in
  Forall2 (λ s v, parse_class_specific_value stod_decimal s = Returned v) strs vs ∧
  Forall (λ v, class_index v < 2) vs ∧
  parse_class_specific_values (QArith_base.Qmake 0 1) stod_decimal strs 2
    = Returned [QArith_base.Qmake 0 1; QArith_base.Qmake 7 10] ∧
  ¬ (∀ v, v ∈ vs →
       [QArith_base.Qmake 0 1; QArith_base.Qmake 7 10] !! Z.to_nat (class_index v)
         = Some (value v)).
Proof.
  intros strs vs. split; [repeat constructor|]. split; [repeat constructor|].
  split; [reflexivity|].
  intros H. specialize (H (MkClassSpecificValue 1 (QArith_base.Qmake 5 10))).
  simpl in H. discriminate H. apply list_elem_of_here.
Qed.

(** What the gain parser does refuse: a specification string without a
    colon that separates a non-empty index part from a non-empty value
    part, with the format message; an index that, once stored in the
    16-bit [class_index], is not below the class count, with a message
    naming index and count; a list holding either kind makes the parser
    throw, and [main] then ends with that error having started no
    reader, no writer and no write request. *)
Theorem gain_errors_fail_fast {double} (zero : double)
    (stod : string → library_result double) (Parse : string → option json)
    {annonet_infer_temp : Type}
    (annonet_infer : list double → matrix Z → matrix Z → annonet_infer_temp →
                     library_result (matrix Z * annonet_infer_temp)) :
  (∀ s, ¬ separated s → parse_class_specific_value stod s = Thrown format_error) ∧
  (∀ s v n rest,
     parse_class_specific_value stod s = Returned v → n ≤ class_index v →
     parse_class_specific_values zero stod (s :: rest) n
       = Thrown (index_error (class_index v) n)) ∧
  (∀ strs n, Exists (rejected stod n) strs →
     ∃ what, parse_class_specific_values zero stod strs n = Thrown what) ∧
  (∀ json_text strs classes readers writers dequeued temp0,
     parse_anno_classes Parse json_text = Returned classes →
     Exists (rejected stod (to_uint16 (Z.of_nat (length classes)))) strs →
     ∃ what, main Parse zero stod annonet_infer json_text strs readers writers
               dequeued temp0 = MkRun 0 0 (Thrown what) []).
Proof.
  split; [|split; [|split]].
  - apply parse_class_specific_value_format.
  - intros s v n rest Hs Hn. unfold parse_class_specific_values. simpl.
    rewrite Hs. simpl. rewrite Z.geb_leb.
    by destruct (Z.leb_spec n (class_index v)); [|lia].
  - intros strs n Hex. by apply parse_class_specific_values_loop_rejected.
  - intros json_text strs classes readers writers dequeued temp0 Hclasses Hex.
    unfold main, main_startup. rewrite Hclasses. simpl.
    destruct (Z.of_nat (length classes) <? 2); [by eexists|].
    destruct (parse_class_specific_values_loop_rejected stod strs _ Hex
                (replicate (Z.to_nat (to_uint16 (Z.of_nat (length classes)))) zero))
      as [what Hwhat].
    unfold parse_class_specific_values. rewrite Hwhat. simpl. by eexists.
Qed.

Lemma gain_errors_fail_fast_witness :
  let q0 := QArith_base.Qmake 0 1 in
  let infer := λ (_ : list QArith_base.Q) (_ p : matrix Z) (t : unit), Value (p, t) in
  parse_class_specific_value stod_decimal "15" = Thrown format_error ∧
  parse_class_specific_values q0 stod_decimal ["2:0.5"; "0:1.5"] 2
    = Thrown (index_error 2 2) ∧
  (∃ what, parse_class_specific_values q0 stod_decimal ["1:0.5"; "2:0.5"] 2
             = Thrown what) ∧
  (∃ what, main (λ _, None) q0 stod_decimal infer "" ["1:0.5"; "2:0.5"] 4 4 [] ()
             = MkRun 0 0 (Thrown what) []).
Proof.
  intros q0 infer.
  destruct (gain_errors_fail_fast q0 stod_decimal (λ _, None) infer)
    as (Hformat & Hindex & Hlist & Hmain).
  assert (rejected stod_decimal 2 "2:0.5") as Hrej.
  { right. exists (MkClassSpecificValue 2 (QArith_base.Qmake 5 10)).
    split; [reflexivity|simpl; lia]. }
  split; [|split; [|split]].
  - apply Hformat. intros (index_part & value_part & Heq & _).
    destruct index_part as [|a [|b [|c rest]]]; discriminate Heq.
  - apply (Hindex "2:0.5" (MkClassSpecificValue 2 (QArith_base.Qmake 5 10)));
      [reflexivity|simpl; lia].
  - apply Hlist. right. left. exact Hrej.
  - apply (Hmain "" _ default_anno_classes); [reflexivity|].
    right. left. exact Hrej.
Defined.

(** C6: an index written at or above the class count is not always
    refused.  [parse_class_specific_value] stores what [std::stoul]
    read in the 16-bit [class_index] before the range check sees it, so
    with the two built-in classes the well-formed option [65537:0.5],
    whose index 65537 is not below 2, is accepted as a gain for class 1,
    and so are [65536:0.5] for class 0 and [-65535:0.5] for class 1;
    [main] then goes on to start its readers and writers and ends
    without an error. *)
Theorem gain_index_narrowed_before_check :
  let q0 := QArith_base.Qmake 0 1 in
  let half := QArith_base.Qmake 5 10 in
  let infer := λ (_ : list QArith_base.Q) (_ p : matrix Z) (t : unit), Value (p, t) in
  separated "65537:0.5" ∧
  stoul "65537" = Returned 65537 ∧
  parse_class_specific_value stod_decimal "65537:0.5"
    = Returned (MkClassSpecificValue 1 half) ∧
  parse_class_specific_values q0 stod_decimal ["65537:0.5"] 2 = Returned [q0; half] ∧
  parse_class_specific_values q0 stod_decimal ["65536:0.5"] 2 = Returned [half; q0] ∧
  parse_class_specific_values q0 stod_decimal ["-65535:0.5"] 2 = Returned [q0; half] ∧
  main_startup (λ _, None) q0 stod_decimal "" ["65537:0.5"]
    = Returned (default_anno_classes, [q0; half]) ∧
  main (λ _, None) q0 stod_decimal infer "" ["65537:0.5"] 4 4 [] ()
    = MkRun 4 4 (Returned ()) [].
Proof.
  intros q0 half infer.
  split; [by exists "65537", "0.5"|].
  repeat split.
Qed.

(** ** Loops over a state *)

Lemma for_each_defined {S A} (body : A → statement S) (items : list A) :
  (∀ x s, (body x s).1 ≠ Undefined) →
  ∀ s, (for_each body items s).1 ≠ Undefined.
Proof.
  intros Hbody. induction items as [|x rest IH]; intros s; simpl; [done|].
  specialize (Hbody x s). destruct (body x s) as [[?|?|] s']; simpl in *; auto.
Qed.

Lemma for_each_invariant {S A} (P : S → Prop) (body : A → statement S)
    (items : list A) :
  (∀ x s, P s → P (body x s).2) →
  ∀ s, P s → P (for_each body items s).2.
Proof.
  intros Hbody. induction items as [|x rest IH]; intros s Hs; simpl; [done|].
  specialize (Hbody x s Hs). destruct (body x s) as [[?|?|] s']; simpl in *; auto.
Qed.

(** ** Reading a sample *)

Lemma rgba_label_to_index_label_defined (rgba : rgb_alpha_pixel)
    (anno_classes : list AnnoClass) :
  rgba_label_to_index_label rgba anno_classes ≠ Undefined.
Proof.
  unfold rgba_label_to_index_label. destruct (pixel_eq _ _); [done|].
  by destruct (find_class_index _ _).
Qed.

Lemma decode_rgba_label_image_defined (rgba_label_image : matrix rgb_alpha_pixel)
    (anno_classes : list AnnoClass) (s : sample) :
  (decode_rgba_label_image rgba_label_image anno_classes s).1 ≠ Undefined.
Proof.
  unfold decode_rgba_label_image, for_range.
  apply for_each_defined. intros r s1. apply for_each_defined. intros c s2.
  unfold decode_pixel.
  pose proof (rgba_label_to_index_label_defined
                (cell rgba_label_image r c) anno_classes).
  by destruct (rgba_label_to_index_label _ _).
Qed.

(** Decoding the labels leaves the input image and the file names alone. *)
Lemma decode_rgba_label_image_keeps (rgba_label_image : matrix rgb_alpha_pixel)
    (anno_classes : list AnnoClass) (s : sample) :
  let s' := (decode_rgba_label_image rgba_label_image anno_classes s).2 in
  input_image s' = input_image s ∧
  sample_image_filenames s' = sample_image_filenames s.
Proof.
  unfold decode_rgba_label_image, for_range.
  set (P := λ t, input_image t = input_image s ∧
                 sample_image_filenames t = sample_image_filenames s).
  apply (for_each_invariant P); [|done].
  intros r s1 H1. apply (for_each_invariant P); [|done].
  intros c s2 H2. unfold decode_pixel.
  destruct (rgba_label_to_index_label _ _); [|done|done].
  by destruct (_ =? _).
Qed.

Lemma read_sample_try_defined (load_image : string → library_result (matrix Z))
    (load_rgba_image : string → library_result (matrix rgb_alpha_pixel))
    (filenames : image_filenames) (anno_classes : list AnnoClass)
    (require_ground_truth : bool) (s : sample) :
  (read_sample_try load_image load_rgba_image filenames anno_classes
     require_ground_truth s).1 ≠ Undefined.
Proof.
  unfold read_sample_try.
  destruct (load_image _); [|done].
  destruct (negb _).
  - destruct (load_rgba_image _); [|done].
    destruct (_ || _); [|done]. apply decode_rgba_label_image_defined.
  - by destruct require_ground_truth.
Qed.

(** C3: [read_sample] returns a sample on every input; an exception
    that leaves the [try] block (from loading the image, from loading the
    label image, or from decoding it) ends up as the sample's [error],
    which holds its [what()] as the C string it is: up to the first
    NUL. *)
Theorem read_sample_returns (load_image : string → library_result (matrix Z))
    (load_rgba_image : string → library_result (matrix rgb_alpha_pixel))
    (filenames : image_filenames) (anno_classes : list AnnoClass)
    (require_ground_truth : bool) :
  ∃ s,
    read_sample load_image load_rgba_image filenames anno_classes
      require_ground_truth = Returned s ∧
    (∀ what s',
       read_sample_try load_image load_rgba_image filenames anno_classes
         require_ground_truth (with_image_filenames filenames new_sample)
         = (Thrown what, s') →
       error s = from_c_str what) ∧
    (∀ what, load_image (image_filename filenames) = Exception what →
       error s = from_c_str what) ∧
    (∀ image what,
       load_image (image_filename filenames) = Value image →
       label_filename filenames ≠ "" →
       load_rgba_image (label_filename filenames) = Exception what →
       error s = from_c_str what) ∧
    (∀ image rgba_label_image what s',
       load_image (image_filename filenames) = Value image →
       label_filename filenames ≠ "" →
       load_rgba_image (label_filename filenames) = Value rgba_label_image →
       (nr image =? nr rgba_label_image) || (nc image =? nc rgba_label_image) = true →
       decode_rgba_label_image rgba_label_image anno_classes
         (with_input_image image (with_image_filenames filenames new_sample))
         = (Thrown what, s') →
       error s = from_c_str what).
Proof.
  pose proof (read_sample_try_defined load_image load_rgba_image filenames
                anno_classes require_ground_truth
                (with_image_filenames filenames new_sample)) as Hdef.
  unfold read_sample.
  destruct (read_sample_try _ _ _ _ _ _) as [[[]|what0|] s0] eqn:Htry;
    [| |done]; eexists; (split; [reflexivity|]).
  - unfold read_sample_try in Htry. repeat split.
    + intros what s' [=].
    + intros what Hload. by rewrite Hload in Htry.
    + intros image what Himage Hname Hlabel.
      apply String.eqb_neq in Hname.
      by rewrite Himage, Hname, Hlabel in Htry.
    + intros image rgba what s' Himage Hname Hlabel Hsize Hdecode.
      apply String.eqb_neq in Hname.
      rewrite Himage, Hname, Hlabel in Htry. simpl in Htry.
      rewrite Hsize, Hdecode in Htry. discriminate Htry.
  - unfold read_sample_try in Htry. repeat split.
    + by intros what s' [= <- _].
    + intros what Hload. rewrite Hload in Htry. by injection Htry as <- _.
    + intros image what Himage Hname Hlabel.
      apply String.eqb_neq in Hname.
      rewrite Himage, Hname, Hlabel in Htry. by injection Htry as <- _.
    + intros image rgba what s' Himage Hname Hlabel Hsize Hdecode.
      apply String.eqb_neq in Hname.
      rewrite Himage, Hname, Hlabel in Htry. simpl in Htry.
      rewrite Hsize, Hdecode in Htry. by injection Htry as <- _.
Qed.

Lemma read_sample_returns_witness :
  ∃ s, read_sample load_image_example load_rgba_image_example
         (MkImageFilenames "a.png" "b.png_mask.png") default_anno_classes false
       = Returned s ∧
       error s = "Unable to open file b.png_mask.png".
Proof.
  destruct (read_sample_returns load_image_example load_rgba_image_example
              (MkImageFilenames "a.png" "b.png_mask.png") default_anno_classes false)
    as (s & Hs & _ & _ & Hlabel & _).
  exists s. split; [exact Hs|].
  apply (Hlabel (Matrix 2 2 (λ _ _, 128)) "Unable to open file b.png_mask.png");
    [reflexivity|discriminate|reflexivity].
Defined.

(** When the label image differs from the input image in both
    dimensions, the sample reports the mismatch and holds no labels. *)
Lemma read_sample_both_dimensions_differ
    (load_image : string → library_result (matrix Z))
    (load_rgba_image : string → library_result (matrix rgb_alpha_pixel))
    (filenames : image_filenames) (anno_classes : list AnnoClass)
    (require_ground_truth : bool) image rgba_label_image :
  load_image (image_filename filenames) = Value image →
  label_filename filenames ≠ "" →
  load_rgba_image (label_filename filenames) = Value rgba_label_image →
  nr image ≠ nr rgba_label_image →
  nc image ≠ nc rgba_label_image →
  ∃ s, read_sample load_image load_rgba_image filenames anno_classes
         require_ground_truth = Returned s ∧
       error s = "Label image size mismatch" ∧
       label_image s = empty_matrix ∧
       labeled_points_by_class s = ∅.
Proof.
  intros Himage Hname Hlabel Hnr Hnc.
  apply String.eqb_neq in Hname. apply Z.eqb_neq in Hnr, Hnc.
  unfold read_sample, read_sample_try. rewrite Himage, Hname, Hlabel. simpl.
  rewrite Hnr, Hnc. simpl. by eexists.
Qed.

(** C1 on the code: the mask of [a.png] has the rows of the image but
    one column more.  [read_sample] reports no error and decodes the mask
    into the sample: a 2 x 3 label image of class 0 and six labelled
    points. *)
Theorem read_sample_decodes_mismatched_label :
  ∃ s, read_sample load_image_example load_rgba_image_example
         (MkImageFilenames "a.png" "a.png_mask.png") default_anno_classes false
       = Returned s ∧
       error s = "" ∧
       (nr (input_image s), nc (input_image s)) = (2, 2) ∧
       (nr (label_image s), nc (label_image s)) = (2, 3) ∧
       cell (label_image s) 1 2 = 0 ∧
       labeled_points_by_class s !! 0 =
         Some [Point 0 0; Point 1 0; Point 2 0; Point 0 1; Point 1 1; Point 2 1].
Proof.
  assert (match read_sample load_image_example load_rgba_image_example
                  (MkImageFilenames "a.png" "a.png_mask.png")
                  default_anno_classes false with
          | Returned s =>
            error s = "" ∧
            (nr (input_image s), nc (input_image s)) = (2, 2) ∧
            (nr (label_image s), nc (label_image s)) = (2, 3) ∧
            cell (label_image s) 1 2 = 0 ∧
            labeled_points_by_class s !! 0 =
              Some [Point 0 0; Point 1 0; Point 2 0; Point 0 1; Point 1 1; Point 2 1]
          | _ => False
          end) as H by (vm_compute; repeat split).
  destruct (read_sample _ _ _ _ _) as [s|what|]; [|contradiction|contradiction].
  by exists s.
Qed.

(** ** The main loop *)

Section MainLoop.

Context {double annonet_infer_temp : Type}.
Context (annonet_infer : list double → matrix Z → matrix Z → annonet_infer_temp →
                         library_result (matrix Z * annonet_infer_temp)).
Context (gains : list double).

Lemma main_loop_cons (s : DecodedSample) (rest : list DecodedSample)
    (st : main_state annonet_infer_temp) :
  main_loop annonet_infer gains (s :: rest) st =
    match process_sample annonet_infer gains s st with
    | (Returned _, st') => main_loop annonet_infer gains rest st'
    | (Thrown what, st') => (Thrown what, st')
    | (Undefined, st') => (Undefined, st')
    end.
Proof. reflexivity. Qed.

(** An iteration throws and leaves the queue alone, or returns having
    appended one request, the one for its sample. *)
Lemma process_sample_cases (s : DecodedSample) (st : main_state annonet_infer_temp) :
  (∃ what, process_sample annonet_infer gains s st = (Thrown what, st)) ∨
  (∃ st' r, process_sample annonet_infer gains s st = (Returned (), st') ∧
            error (decoded s) = "" ∧
            result_image_write_requests st' = result_image_write_requests st ++ [r] ∧
            filename r = output_name s ∧
            original_width r = originalWidth s ∧
            original_height r = originalHeight s).
Proof.
  unfold process_sample.
  destruct (String.eqb_spec (error (decoded s)) "") as [Herr|Herr]; simpl.
  - destruct (annonet_infer _ _ _ _) as [[probability temp']|what].
    + right. by eexists _, _.
    + left. by eexists.
  - left. by eexists.
Qed.

Lemma process_sample_error (s : DecodedSample) (st : main_state annonet_infer_temp) :
  error (decoded s) ≠ "" →
  process_sample annonet_infer gains s st = (Thrown (error (decoded s)), st).
Proof.
  intros Herr. unfold process_sample.
  by destruct (String.eqb_spec (error (decoded s)) "").
Qed.

(** However far the loop gets through [before], it ends by throwing,
    with requests for a prefix of [before] only. *)
Lemma main_loop_stops (before : list DecodedSample) (s : DecodedSample)
    (after : list DecodedSample) :
  error (decoded s) ≠ "" →
  ∀ st, ∃ what processed st',
    main_loop annonet_infer gains (before ++ s :: after) st = (Thrown what, st') ∧
    processed `prefix_of` before ∧
    (processed = before → what = error (decoded s)) ∧
    filename <$> result_image_write_requests st' =
      (filename <$> result_image_write_requests st) ++ (output_name <$> processed).
Proof.
  intros Herr. induction before as [|b before IH]; intros st.
  - exists (error (decoded s)), [], st. simpl app. rewrite main_loop_cons.
    rewrite process_sample_error by done.
    repeat split; [done|]. by rewrite app_nil_r.
  - simpl app. rewrite main_loop_cons.
    destruct (process_sample_cases b st)
      as [[what ->]|(st1 & r & -> & _ & Hreq & Hname & _)].
    + exists what, [], st. repeat split; [apply prefix_nil|done|].
      by rewrite app_nil_r.
    + destruct (IH st1) as (what & processed & st' & -> & Hpre & Hall & Hnames).
      exists what, (b :: processed), st'. repeat split.
      * by apply prefix_cons.
      * intros [= ->]. by apply Hall.
      * rewrite Hnames, Hreq, fmap_app, <- app_assoc. simpl. by rewrite Hname.
Qed.

End MainLoop.

(** C2: when the main loop dequeues a sample whose [error] is not empty
    it throws that error at once: the samples after it are not processed
    and the queue of write requests stays as it was.  A run over a
    sequence that contains such a sample always ends by throwing, having
    enqueued requests only for samples dequeued before it; so does
    [main] once its start-up has succeeded. *)
Theorem main_loop_aborts_on_error {double annonet_infer_temp : Type}
    (annonet_infer : list double → matrix Z → matrix Z → annonet_infer_temp →
                     library_result (matrix Z * annonet_infer_temp))
    (gains : list double) (before : list DecodedSample) (s : DecodedSample)
    (after : list DecodedSample) (st : main_state annonet_infer_temp) :
  error (decoded s) ≠ "" →
  main_loop annonet_infer gains (s :: after) st = (Thrown (error (decoded s)), st) ∧
  (∃ what processed st',
     main_loop annonet_infer gains (before ++ s :: after) st = (Thrown what, st') ∧
     processed `prefix_of` before ∧
     (processed = before → what = error (decoded s)) ∧
     filename <$> result_image_write_requests st' =
       (filename <$> result_image_write_requests st) ++ (output_name <$> processed)) ∧
  (∀ Parse zero stod json_text gain_options readers writers temp0 configuration,
     main_startup Parse zero stod json_text gain_options = Returned configuration →
     let r := main Parse zero stod annonet_infer json_text gain_options
                readers writers (before ++ s :: after) temp0 in
     ∃ what processed,
       completion r = Thrown what ∧
       processed `prefix_of` before ∧
       (processed = before → what = error (decoded s)) ∧
       filename <$> write_requests r = output_name <$> processed).
Proof.
  intros Herr. split; [|split].
  - rewrite main_loop_cons. by rewrite process_sample_error.
  - by apply main_loop_stops.
  - intros Parse zero stod json_text gain_options readers writers temp0
      [anno_classes gains'] Hstart. unfold main. rewrite Hstart.
    destruct (main_loop_stops annonet_infer gains' before s after Herr
                (MkMainState temp0 []))
      as (what & processed & st' & -> & Hprefix & Hall & Hnames).
    by exists what, processed.
Qed.

Lemma main_loop_aborts_on_error_witness :
  let infer := λ (_ : list QArith_base.Q) (_ p : matrix Z) (t : unit), Value (p, t) in
  let sample_of name err :=
    MkDecodedSample
      (with_error err (with_image_filenames (MkImageFilenames name "") new_sample)) 0 0 in
  let s := sample_of "b.png" "Label image size mismatch" in
  let dequeued := [sample_of "a.png" ""] ++ s :: [sample_of "c.png" ""] in
  let st := MkMainState () [] in
  let r := main (λ _, None) (QArith_base.Qmake 0 1) stod_decimal infer "" ["1:0.5"]
             2 2 dequeued () in
  main_loop infer [] [s; sample_of "c.png" ""] st = (Thrown (error (decoded s)), st) ∧
  (∃ what processed st',
     main_loop infer [] dequeued st = (Thrown what, st') ∧
     processed `prefix_of` [sample_of "a.png" ""] ∧
     (processed = [sample_of "a.png" ""] → what = error (decoded s)) ∧
     filename <$> result_image_write_requests st' =
       (filename <$> result_image_write_requests st) ++ (output_name <$> processed)) ∧
  (∃ what processed,
     completion r = Thrown what ∧
     processed `prefix_of` [sample_of "a.png" ""] ∧
     (processed = [sample_of "a.png" ""] → what = error (decoded s)) ∧
     filename <$> write_requests r = output_name <$> processed).
Proof.
  intros infer sample_of s dequeued st r.
  destruct (main_loop_aborts_on_error infer [] [sample_of "a.png" ""] s
              [sample_of "c.png" ""] st) as (Hstep & Hrun & Hmain); [discriminate|].
  split; [exact Hstep|]. split; [exact Hrun|].
  apply (Hmain (λ _, None) (QArith_base.Qmake 0 1) stod_decimal "" ["1:0.5"] 2 2 ()
           (default_anno_classes,
            [QArith_base.Qmake 0 1; QArith_base.Qmake 5 10])).
  reflexivity.
Defined.

(** ** Original dimensions *)

(** When the image loads, the returned sample holds it. *)
Lemma read_sample_input_image (load_image : string → library_result (matrix Z))
    (load_rgba_image : string → library_result (matrix rgb_alpha_pixel))
    (filenames : image_filenames) (anno_classes : list AnnoClass)
    (require_ground_truth : bool) (image : matrix Z) :
  load_image (image_filename filenames) = Value image →
  ∃ s, read_sample load_image load_rgba_image filenames anno_classes
         require_ground_truth = Returned s ∧
       input_image s = image ∧ sample_image_filenames s = filenames.
Proof.
  intros Himage.
  pose proof (read_sample_try_defined load_image load_rgba_image filenames
                anno_classes require_ground_truth
                (with_image_filenames filenames new_sample)) as Hdef.
  assert (let s' := (read_sample_try load_image load_rgba_image filenames anno_classes
                       require_ground_truth
                       (with_image_filenames filenames new_sample)).2 in
          input_image s' = image ∧ sample_image_filenames s' = filenames) as Hkeep.
  { unfold read_sample_try. rewrite Himage.
    destruct (negb _).
    - destruct (load_rgba_image _); [|done].
      destruct (_ || _); [|done]. apply decode_rgba_label_image_keeps.
    - by destruct require_ground_truth. }
  unfold read_sample.
  destruct (read_sample_try _ _ _ _ _ _) as [[[]|what|] s0]; [| |done];
    eexists; (split; [reflexivity|]); exact Hkeep.
Qed.

(** C4, on [read_sample_downscaled] as the spec describes it and on the
    main loop and the writer of annonet_infer_main.cpp: when the image
    loads, the decoded sample holds the image after the configured
    downscaling, its originalWidth and originalHeight are the columns
    and rows of the image as loaded, the write request the main loop
    makes for the sample carries them, and the writer resizes the result
    to exactly these dimensions. *)
Theorem original_dimensions_recorded
    (load_image : string → library_result (matrix Z))
    (load_rgba_image : string → library_result (matrix rgb_alpha_pixel))
    {double annonet_infer_temp : Type}
    (annonet_infer : list double → matrix Z → matrix Z → annonet_infer_temp →
                     library_result (matrix Z * annonet_infer_temp))
    (interpolate : matrix Z → Z → Z → Z → Z → Z)
    (filenames : image_filenames) (anno_classes : list AnnoClass)
    (require_ground_truth : bool) (downscaling : option (matrix Z → matrix Z))
    (image : matrix Z) :
  load_image (image_filename filenames) = Value image →
  ∃ d,
    read_sample_downscaled load_image load_rgba_image filenames anno_classes
      require_ground_truth downscaling = Returned d ∧
    input_image (decoded d) =
      match downscaling with Some resize => resize image | None => image end ∧
    originalWidth d = nc image ∧
    originalHeight d = nr image ∧
    ∀ gains st st',
      process_sample annonet_infer gains d st = (Returned (), st') →
      ∃ r, result_image_write_requests st' = result_image_write_requests st ++ [r] ∧
           original_width r = nc image ∧
           original_height r = nr image ∧
           nr (write_result_image interpolate r).2 = nr image ∧
           nc (write_result_image interpolate r).2 = nc image.
Proof.
  intros Himage.
  destruct (read_sample_input_image load_image load_rgba_image filenames anno_classes
              require_ground_truth image Himage) as (s & Hs & Hinput & _).
  unfold read_sample_downscaled. rewrite Hs. simpl. rewrite Hinput.
  set (d := MkDecodedSample _ _ _). exists d. split; [reflexivity|].
  repeat split.
  intros gains st st' Hprocess.
  destruct (process_sample_cases annonet_infer gains d st)
    as [[what Hthrown]|(st1 & r & Hreturned & _ & Hreq & _ & Hw & Hh)];
    rewrite Hprocess in *; [discriminate Hthrown|].
  injection Hreturned as <-. exists r. simpl in Hw, Hh.
  repeat split; [done|done|done|simpl; done|simpl; done].
Qed.

Lemma original_dimensions_recorded_witness :
  let infer := λ (_ : list QArith_base.Q) (_ p : matrix Z) (t : unit), Value (p, t) in
  let halve := λ m : matrix Z,
    Matrix (nr m / 2) (nc m / 2) (λ r c, cell m (2 * r) (2 * c)) in
  let nearest := λ (m : matrix Z) (rows cols r c : Z),
    cell m (r * nr m / rows) (c * nc m / cols) in
  ∃ d,
    read_sample_downscaled load_image_example load_rgba_image_example
      (MkImageFilenames "a.png" "") default_anno_classes false (Some halve)
      = Returned d ∧
    input_image (decoded d) = halve (Matrix 2 2 (λ _ _, 128)) ∧
    originalWidth d = 2 ∧
    originalHeight d = 2 ∧
    ∀ gains st st',
      process_sample infer gains d st = (Returned (), st') →
      ∃ r, result_image_write_requests st' = result_image_write_requests st ++ [r] ∧
           original_width r = 2 ∧
           original_height r = 2 ∧
           nr (write_result_image nearest r).2 = 2 ∧
           nc (write_result_image nearest r).2 = 2.
Proof.
  intros infer halve nearest.
  apply (original_dimensions_recorded load_image_example load_rgba_image_example
           infer nearest (MkImageFilenames "a.png" "") default_anno_classes false
           (Some halve) (Matrix 2 2 (λ _ _, 128))).
  reflexivity.
Defined.

(** * Further properties of the code *)

(** ** Looking a colour up *)

Lemma find_class_index_Some (rgba : rgb_alpha_pixel) (anno_classes : list AnnoClass)
    (i : Z) :
  find_class_index rgba anno_classes = Some i →
  ∃ before c after,
    anno_classes = before ++ c :: after ∧ rgba_label c = rgba ∧ index c = i ∧
    ∀ b, b ∈ before → rgba_label b ≠ rgba.
Proof.
  induction anno_classes as [|a rest IH]; simpl; [done|].
  destruct (pixel_eq (rgba_label a) rgba) eqn:Heq.
  - intros [= <-]. apply pixel_eq_true in Heq.
    exists [], a, rest. repeat split; [done|]. intros b Hb. by apply elem_of_nil in Hb.
  - intros H. apply IH in H as (before & c & after & -> & Hc & Hi & Hbefore).
    exists (a :: before), c, after. repeat split; [done|done|].
    intros b [->|Hb]%elem_of_cons; [by apply pixel_eq_false|by apply Hbefore].
Qed.

Lemma find_class_index_None (rgba : rgb_alpha_pixel) (anno_classes : list AnnoClass) :
  find_class_index rgba anno_classes = None ↔ rgba ∉ rgba_label <$> anno_classes.
Proof.
  induction anno_classes as [|a rest IH]; simpl.
  - split; [intros _ H; by apply elem_of_nil in H|done].
  - rewrite not_elem_of_cons.
    destruct (pixel_eq (rgba_label a) rgba) eqn:Heq.
    + apply pixel_eq_true in Heq. split; [done|]. intros [Hne _]. by destruct Hne.
    + apply pixel_eq_false in Heq. rewrite IH. split; [|by intros [_ ?]].
      intros H. split; [congruence|done].
Qed.

Lemma find_class_index_first (rgba : rgb_alpha_pixel) (before : list AnnoClass)
    (c : AnnoClass) (after : list AnnoClass) :
  rgba_label c = rgba →
  (∀ b, b ∈ before → rgba_label b ≠ rgba) →
  find_class_index rgba (before ++ c :: after) = Some (index c).
Proof.
  intros Hc. induction before as [|a before IH]; intros Hbefore; simpl.
  - by rewrite Hc, pixel_eq_refl.
  - assert (pixel_eq (rgba_label a) rgba = false) as ->.
    { apply pixel_eq_false, Hbefore, elem_of_cons. by left. }
    apply IH. intros b Hb. apply Hbefore, elem_of_cons. by right.
Qed.

(** X1: a colour other than the reserved one is mapped to the index of the
    first class in the list that has it as colour key, whatever classes
    with the same colour follow. *)
Theorem rgba_label_to_index_label_first_match (rgba : rgb_alpha_pixel)
    (before : list AnnoClass) (c : AnnoClass) (after : list AnnoClass) :
  rgba ≠ rgba_ignore_label →
  rgba_label c = rgba →
  (∀ b, b ∈ before → rgba_label b ≠ rgba) →
  rgba_label_to_index_label rgba (before ++ c :: after) = Returned (index c).
Proof.
  intros Hne Hc Hbefore. unfold rgba_label_to_index_label.
  apply pixel_eq_false in Hne. rewrite Hne.
  by rewrite (find_class_index_first rgba before c after Hc Hbefore).
Qed.

Lemma rgba_label_to_index_label_first_match_witness :
  rgba_label_to_index_label (RgbAlphaPixel 255 0 0 128)
    ([MkAnnoClass 0 (RgbAlphaPixel 0 255 0 64) "clean"]
       ++ MkAnnoClass 1 (RgbAlphaPixel 255 0 0 128) "defect"
       :: [MkAnnoClass 2 (RgbAlphaPixel 255 0 0 128) "scratch"])
  = Returned 1.
Proof.
  apply (rgba_label_to_index_label_first_match (RgbAlphaPixel 255 0 0 128)
           [MkAnnoClass 0 (RgbAlphaPixel 0 255 0 64) "clean"]
           (MkAnnoClass 1 (RgbAlphaPixel 255 0 0 128) "defect")).
  - discriminate.
  - reflexivity.
  - intros b ->%list_elem_of_singleton. discriminate.
Defined.

(** X2: [rgba_label_to_index_label] returns exactly on the reserved colour
    and on the colour keys of the classes; what it returns is the ignore
    label or the index of a class with that colour.  On any other colour
    it throws the unknown-class error. *)
Theorem rgba_label_to_index_label_known (anno_classes : list AnnoClass)
    (rgba : rgb_alpha_pixel) :
  (known_colour anno_classes rgba →
   ∃ i, rgba_label_to_index_label rgba anno_classes = Returned i ∧
        (rgba = rgba_ignore_label ∧ i = label_to_ignore ∨
         ∃ c, c ∈ anno_classes ∧ rgba_label c = rgba ∧ index c = i)) ∧
  (¬ known_colour anno_classes rgba →
   rgba_label_to_index_label rgba anno_classes = Thrown (unknown_class_message rgba)).
Proof.
  unfold rgba_label_to_index_label, known_colour.
  destruct (pixel_eq rgba rgba_ignore_label) eqn:Hign.
  - apply pixel_eq_true in Hign. split; [|intros H; destruct H; by left].
    intros _. exists label_to_ignore. split; [done|by left].
  - apply pixel_eq_false in Hign.
    destruct (find_class_index rgba anno_classes) as [i|] eqn:Hfind.
    + split.
      * intros _. exists i. split; [done|right].
        apply find_class_index_Some in Hfind
          as (before & c & after & -> & Hc & Hi & _).
        exists c. split; [|done]. apply elem_of_app. right. by left.
      * intros Hunknown. destruct Hunknown. right.
        apply find_class_index_Some in Hfind
          as (before & c & after & -> & <- & _ & _).
        apply list_elem_of_fmap. exists c. split; [done|].
        apply elem_of_app. right. by left.
    + apply find_class_index_None in Hfind. split; [|done].
      intros [?|?]; done.
Qed.

(** X3: in a class list whose k-th element has index k, the index that a
    class colour is mapped to leads back to that colour; the ignore label
    that the reserved colour is mapped to leads nowhere as long as there
    are fewer than 65536 classes. *)
Theorem rgba_index_round_trip (anno_classes : list AnnoClass)
    (rgba : rgb_alpha_pixel) (i : Z) :
  (∀ (k : nat) c, anno_classes !! k = Some c → index c = Z.of_nat k) →
  rgba_label_to_index_label rgba anno_classes = Returned i →
  (rgba ≠ rgba_ignore_label →
   index_label_to_rgba_label i anno_classes = Returned rgba) ∧
  (rgba = rgba_ignore_label → Z.of_nat (length anno_classes) ≤ 65535 →
   index_label_to_rgba_label i anno_classes = Undefined).
Proof.
  intros Hdense. unfold rgba_label_to_index_label.
  destruct (pixel_eq rgba rgba_ignore_label) eqn:Hign.
  - apply pixel_eq_true in Hign. intros [= <-]. split; [done|].
    intros _ Hlen. unfold index_label_to_rgba_label, label_to_ignore.
    by rewrite lookup_ge_None_2 by lia.
  - apply pixel_eq_false in Hign.
    destruct (find_class_index rgba anno_classes) as [j|] eqn:Hfind; [|done].
    intros [= ->]. split; [|done]. intros _.
    apply find_class_index_Some in Hfind as (before & c & after & -> & <- & <- & _).
    assert ((before ++ c :: after) !! length before = Some c) as Hc
      by (by rewrite lookup_app_r, Nat.sub_diag by lia).
    unfold index_label_to_rgba_label.
    rewrite (Hdense _ _ Hc), Nat2Z.id, Hc, (Hdense _ _ Hc), Z.eqb_refl. done.
Qed.

Lemma rgba_index_round_trip_witness :
  (RgbAlphaPixel 255 0 0 128 ≠ rgba_ignore_label →
   index_label_to_rgba_label 1 default_anno_classes
     = Returned (RgbAlphaPixel 255 0 0 128)) ∧
  (RgbAlphaPixel 255 0 0 128 = rgba_ignore_label →
   Z.of_nat (length default_anno_classes) ≤ 65535 →
   index_label_to_rgba_label 1 default_anno_classes = Undefined).
Proof.
  apply (rgba_index_round_trip default_anno_classes (RgbAlphaPixel 255 0 0 128) 1).
  - intros [|[|k]] c; simpl; intros [= <-] || intros [=]; reflexivity.
  - reflexivity.
Defined.

(** ** Loops, once more *)

Lemma for_each_app {S A} (body : A → statement S) (l1 l2 : list A) (s : S) :
  for_each body (l1 ++ l2) s =
    match for_each body l1 s with
    | (Returned _, s') => for_each body l2 s'
    | (Thrown what, s') => (Thrown what, s')
    | (Undefined, s') => (Undefined, s')
    end.
Proof.
  revert s. induction l1 as [|x l1 IH]; intros s; simpl; [done|].
  destruct (body x s) as [[[]|what|] s']; [apply IH|done|done].
Qed.

Lemma for_each_fmap {S A B} (f : A → B) (body : B → statement S) (l : list A) (s : S) :
  for_each body (f <$> l) s = for_each (λ x, body (f x)) l s.
Proof.
  revert s. induction l as [|x l IH]; intros s; simpl; [done|].
  destruct (body (f x) s) as [[[]|what|] s']; [apply IH|done|done].
Qed.

(** The two nested loops visit the cells in [raster] order. *)
Lemma for_range_raster {S} (body : Z → Z → statement S) (rows cols : Z) (s : S) :
  for_range rows (λ r, for_range cols (body r)) s =
    for_each (λ p, body p.1 p.2) (raster rows cols) s.
Proof.
  unfold for_range, raster. revert s.
  induction (seqZ 0 rows) as [|r rs IH]; intros s; [done|].
  cbn [for_each mbind list_bind]. rewrite for_each_app, for_each_fmap. simpl.
  destruct (for_each (body r) (seqZ 0 cols) s) as [[[]|what|] s']; [apply IH|done|done].
Qed.

Lemma elem_of_raster (rows cols r c : Z) :
  (r, c) ∈ raster rows cols ↔ (0 ≤ r < rows) ∧ (0 ≤ c < cols).
Proof.
  unfold raster. rewrite list_elem_of_bind. split.
  - intros (r' & [c' [[= -> ->] Hc]]%list_elem_of_fmap & Hr).
    apply elem_of_seqZ in Hr, Hc. lia.
  - intros [Hr Hc]. exists r. split.
    + apply list_elem_of_fmap. exists c. split; [done|]. apply elem_of_seqZ. lia.
    + apply elem_of_seqZ. lia.
Qed.

Lemma filter_ext_elem {A} (P Q : A → Prop) `{!∀ x, Decision (P x), !∀ x, Decision (Q x)}
    (l : list A) :
  (∀ x, x ∈ l → P x ↔ Q x) → filter P l = filter Q l.
Proof.
  induction l as [|x l IH]; intros Hext; [done|].
  rewrite !filter_cons.
  assert (P x ↔ Q x) as Hx by (apply Hext; by left).
  rewrite IH by (intros y Hy; apply Hext; by right).
  destruct (decide (P x)), (decide (Q x)); tauto || done.
Qed.

(** ** Decoding a label image *)

Lemma known_colour_returned (anno_classes : list AnnoClass) (rgba : rgb_alpha_pixel) :
  known_colour anno_classes rgba →
  rgba_label_to_index_label rgba anno_classes
    = Returned (match rgba_label_to_index_label rgba anno_classes with
                | Returned label => label
                | _ => label_to_ignore
                end).
Proof.
  unfold rgba_label_to_index_label. intros Hknown.
  destruct (pixel_eq rgba rgba_ignore_label) eqn:Hign; [done|].
  destruct (find_class_index rgba anno_classes) eqn:Hfind; [done|].
  apply find_class_index_None in Hfind. apply pixel_eq_false in Hign.
  by destruct Hknown.
Qed.

Lemma unknown_colour_thrown (anno_classes : list AnnoClass) (rgba : rgb_alpha_pixel) :
  ¬ known_colour anno_classes rgba →
  rgba_label_to_index_label rgba anno_classes = Thrown (unknown_class_message rgba).
Proof.
  unfold rgba_label_to_index_label, known_colour. intros Hunknown.
  destruct (pixel_eq rgba rgba_ignore_label) eqn:Hign.
  - apply pixel_eq_true in Hign. destruct Hunknown. by left.
  - destruct (find_class_index rgba anno_classes) eqn:Hfind; [|done].
    apply find_class_index_Some in Hfind as (before & c & after & -> & <- & _ & _).
    destruct Hunknown. right. apply list_elem_of_fmap. exists c. split; [done|].
    apply elem_of_app. right. by left.
Qed.

Lemma lookup_push_labeled_point (label : Z) (p : point) (points : gmap Z (list point))
    (l : Z) :
  push_labeled_point label p points !! l =
    if decide (l = label) then Some (default [] (points !! label) ++ [p])
    else points !! l.
Proof.
  unfold push_labeled_point. destruct (decide (l = label)) as [->|Hne].
  - by rewrite lookup_insert_eq.
  - by rewrite lookup_insert_ne.
Qed.

Section DecodeProperties.

Context (img : matrix rgb_alpha_pixel) (cls : list AnnoClass).

Lemma decode_pixel_known (r c : Z) (s : sample) :
  known_colour cls (cell img r c) →
  decode_pixel img cls r c s =
    (Returned (),
     let label := label_at img cls r c in
     let s1 :=
       if label =? label_to_ignore then s
       else with_labeled_points
              (push_labeled_point label (Point c r) (labeled_points_by_class s)) s in
     with_label_image (assign (label_image s1) r c label) s1).
Proof.
  intros Hknown. unfold decode_pixel, label_at.
  by rewrite (known_colour_returned _ _ Hknown).
Qed.

Lemma points_labelled_cons (labels : matrix Z) (label : Z) (p : Z * Z)
    (ps : list (Z * Z)) :
  points_labelled labels label (p :: ps) =
    if decide (cell labels p.1 p.2 = label)
    then Point p.2 p.1 :: points_labelled labels label ps
    else points_labelled labels label ps.
Proof.
  unfold points_labelled. rewrite filter_cons. by destruct (decide _).
Qed.

Lemma decode_positions_known (ps : list (Z * Z)) :
  (∀ p, p ∈ ps → known_colour cls (cell img p.1 p.2)) →
  ∀ s, ∃ s',
    for_each (λ p, decode_pixel img cls p.1 p.2) ps s = (Returned (), s') ∧
    sample_image_filenames s' = sample_image_filenames s ∧
    input_image s' = input_image s ∧
    error s' = error s ∧
    nr (label_image s') = nr (label_image s) ∧
    nc (label_image s') = nc (label_image s) ∧
    (∀ r c, cell (label_image s') r c =
              if decide ((r, c) ∈ ps) then label_at img cls r c
              else cell (label_image s) r c) ∧
    (∀ l, l ≠ label_to_ignore →
       default [] (labeled_points_by_class s' !! l) =
         default [] (labeled_points_by_class s !! l)
           ++ points_labelled (Matrix 0 0 (label_at img cls)) l ps) ∧
    (∀ l, labeled_points_by_class s' !! l = None ↔
          labeled_points_by_class s !! l = None ∧
          (l = label_to_ignore ∨
           points_labelled (Matrix 0 0 (label_at img cls)) l ps = [])).
Proof.
  induction ps as [|[r c] ps IH]; intros Hknown s.
  - exists s. split; [done|]. do 5 (split; [done|]). split; [|split].
    + done.
    + intros l _. by rewrite app_nil_r.
    + intros l. split; [intros Hl; split; [done|by right]|by intros [? _]].
  - simpl for_each. rewrite decode_pixel_known by (apply (Hknown (r, c)); by left).
    cbv zeta.
    set (label := label_at img cls r c).
    set (s1 := if label =? label_to_ignore then s else _).
    set (s2 := with_label_image _ s1).
    destruct (IH (λ p Hp, Hknown p (list_elem_of_further _ _ _ Hp)) s2)
      as (s' & -> & Hfiles & Hinput & Herror & Hnr & Hnc & Hcell & Hpoints & Hnone).
    assert (labeled_points_by_class s2 = labeled_points_by_class s1) as Hs2 by done.
    exists s'. split; [done|].
    split; [rewrite Hfiles; subst s2 s1; by destruct (label =? _)|].
    split; [rewrite Hinput; subst s2 s1; by destruct (label =? _)|].
    split; [rewrite Herror; subst s2 s1; by destruct (label =? _)|].
    split; [rewrite Hnr; subst s2 s1; by destruct (label =? _)|].
    split; [rewrite Hnc; subst s2 s1; by destruct (label =? _)|].
    split; [|split].
    + intros r' c'. rewrite Hcell.
      destruct (decide ((r', c') ∈ ps)) as [Hin|Hnin].
      * by rewrite decide_True by (by right).
      * subst s2. simpl.
        destruct ((r' =? r) && (c' =? c)) eqn:Heq.
        -- apply andb_prop in Heq as [->%Z.eqb_eq ->%Z.eqb_eq].
           by rewrite decide_True by (by left).
        -- rewrite decide_False.
           ++ subst s1. by destruct (label =? _).
           ++ intros [[= -> ->]|?]%elem_of_cons; [|done].
              by rewrite !Z.eqb_refl in Heq.
    + intros l Hl. rewrite Hpoints by done. rewrite Hs2, points_labelled_cons. simpl.
      fold label. subst s1.
      destruct (Z.eqb_spec label label_to_ignore) as [Hign|Hnign].
      * by rewrite decide_False by congruence.
      * simpl. rewrite lookup_push_labeled_point.
        destruct (decide (l = label)) as [->|Hne].
        -- rewrite decide_True by done. simpl. by rewrite <- app_assoc.
        -- by rewrite decide_False by done.
    + intros l. rewrite Hnone, Hs2, points_labelled_cons. simpl. fold label. subst s1.
      destruct (Z.eqb_spec label label_to_ignore) as [Hign|Hnign].
      * destruct (decide (label = l)) as [<-|Hne]; [|done].
        split; intros [? ?]; (split; [done|by left]).
      * simpl. rewrite lookup_push_labeled_point.
        destruct (decide (l = label)) as [->|Hne].
        -- rewrite decide_True by done. split; [by intros [? _]|].
           intros [_ [?|?]]; done.
        -- by rewrite decide_False by done.
Qed.

End DecodeProperties.

(** What decoding does when every colour in range is known, in terms of
    [label_at]. *)
Lemma decode_rgba_label_image_known (img : matrix rgb_alpha_pixel)
    (cls : list AnnoClass) (s : sample) :
  (∀ r c, 0 ≤ r < nr img → 0 ≤ c < nc img → known_colour cls (cell img r c)) →
  ∃ s',
    decode_rgba_label_image img cls s = (Returned (), s') ∧
    sample_image_filenames s' = sample_image_filenames s ∧
    input_image s' = input_image s ∧
    error s' = error s ∧
    nr (label_image s') = nr img ∧
    nc (label_image s') = nc img ∧
    (∀ r c, 0 ≤ r < nr img → 0 ≤ c < nc img →
       cell (label_image s') r c = label_at img cls r c) ∧
    (∀ l, l ≠ label_to_ignore →
       default [] (labeled_points_by_class s' !! l) =
         points_labelled (label_image s') l (raster (nr img) (nc img))) ∧
    (∀ l, labeled_points_by_class s' !! l = None ↔
          l = label_to_ignore ∨
          points_labelled (label_image s') l (raster (nr img) (nc img)) = []).
Proof.
  intros Hknown. unfold decode_rgba_label_image. rewrite for_range_raster.
  set (s0 := with_labeled_points ∅ _).
  assert (∀ p, p ∈ raster (nr img) (nc img) → known_colour cls (cell img p.1 p.2))
    as Hall by (intros [r c] [Hr Hc]%elem_of_raster; by apply Hknown).
  destruct (decode_positions_known img cls (raster (nr img) (nc img)) Hall s0)
    as (s' & Hrun & Hfiles & Hinput & Herror & Hnr & Hnc & Hcell & Hpoints & Hnone).
  assert (∀ r c, 0 ≤ r < nr img → 0 ≤ c < nc img →
            cell (label_image s') r c = label_at img cls r c) as Hlabels.
  { intros r c Hr Hc. rewrite Hcell.
    by rewrite decide_True by (by apply elem_of_raster). }
  assert (∀ l, points_labelled (Matrix 0 0 (label_at img cls)) l
                 (raster (nr img) (nc img))
               = points_labelled (label_image s') l (raster (nr img) (nc img)))
    as Hsame.
  { intros l. unfold points_labelled. f_equal. apply filter_ext_elem.
    intros [r c] [Hr Hc]%elem_of_raster. simpl. by rewrite Hlabels. }
  exists s'. split; [exact Hrun|]. repeat split; try done.
  - intros l Hl. rewrite Hpoints by done. by rewrite Hsame.
  - intros H. apply Hnone in H as [_ H]. by rewrite <- Hsame.
  - intros H. apply Hnone. split; [done|]. by rewrite Hsame.
Qed.

(** X4: when every pixel of the label image has a known colour, decoding
    returns; the sample's label image gets the size of the label image in
    colours and holds, cell by cell, the label of that pixel's colour;
    file names, input image and error are left as they were. *)
Theorem decode_rgba_label_image_labels (rgba_label_image : matrix rgb_alpha_pixel)
    (anno_classes : list AnnoClass) (s : sample) :
  (∀ r c, 0 ≤ r < nr rgba_label_image → 0 ≤ c < nc rgba_label_image →
     known_colour anno_classes (cell rgba_label_image r c)) →
  ∃ s',
    decode_rgba_label_image rgba_label_image anno_classes s = (Returned (), s') ∧
    nr (label_image s') = nr rgba_label_image ∧
    nc (label_image s') = nc rgba_label_image ∧
    (∀ r c, 0 ≤ r < nr rgba_label_image → 0 ≤ c < nc rgba_label_image →
       rgba_label_to_index_label (cell rgba_label_image r c) anno_classes
         = Returned (cell (label_image s') r c)) ∧
    sample_image_filenames s' = sample_image_filenames s ∧
    input_image s' = input_image s ∧
    error s' = error s.
Proof.
  intros Hknown.
  destruct (decode_rgba_label_image_known rgba_label_image anno_classes s Hknown)
    as (s' & Hrun & Hfiles & Hinput & Herror & Hnr & Hnc & Hcell & _).
  exists s'. repeat split; try done.
  intros r c Hr Hc. rewrite (Hcell r c Hr Hc). unfold label_at.
  by rewrite (known_colour_returned _ _ (Hknown r c Hr Hc)) at 1.
Qed.

Lemma label_image_example_known (r c : Z) :
  known_colour default_anno_classes (cell label_image_example r c).
Proof.
  unfold known_colour. simpl.
  destruct (r =? 0); [destruct (c =? 0)|]; [right|right|left]; try done.
  - apply list_elem_of_here.
  - apply list_elem_of_further, list_elem_of_here.
Qed.

Lemma decode_rgba_label_image_labels_witness :
  ∃ s',
    decode_rgba_label_image label_image_example default_anno_classes new_sample
      = (Returned (), s') ∧
    nr (label_image s') = 2 ∧
    nc (label_image s') = 2 ∧
    (∀ r c, 0 ≤ r < 2 → 0 ≤ c < 2 →
       rgba_label_to_index_label (cell label_image_example r c) default_anno_classes
         = Returned (cell (label_image s') r c)) ∧
    sample_image_filenames s' = sample_image_filenames new_sample ∧
    input_image s' = input_image new_sample ∧
    error s' = error new_sample.
Proof.
  apply (decode_rgba_label_image_labels label_image_example default_anno_classes
           new_sample).
  intros r c _ _. apply label_image_example_known.
Defined.

(** X5: after a successful decode the sample lists, for every label other
    than the ignore label, exactly the cells that hold it, in row-major
    order, each as the point (column, row); the map has no entry for the
    ignore label nor for a label that no cell holds. *)
Theorem decode_rgba_label_image_points (rgba_label_image : matrix rgb_alpha_pixel)
    (anno_classes : list AnnoClass) (s : sample) :
  (∀ r c, 0 ≤ r < nr rgba_label_image → 0 ≤ c < nc rgba_label_image →
     known_colour anno_classes (cell rgba_label_image r c)) →
  ∃ s',
    decode_rgba_label_image rgba_label_image anno_classes s = (Returned (), s') ∧
    (∀ l, l ≠ label_to_ignore →
       default [] (labeled_points_by_class s' !! l) =
         points_labelled (label_image s') l
           (raster (nr rgba_label_image) (nc rgba_label_image))) ∧
    (∀ l, labeled_points_by_class s' !! l = None ↔
          l = label_to_ignore ∨
          points_labelled (label_image s') l
            (raster (nr rgba_label_image) (nc rgba_label_image)) = []).
Proof.
  intros Hknown.
  destruct (decode_rgba_label_image_known rgba_label_image anno_classes s Hknown)
    as (s' & Hrun & _ & _ & _ & _ & _ & _ & Hpoints & Hnone).
  by exists s'.
Qed.

Lemma decode_rgba_label_image_points_witness :
  ∃ s',
    decode_rgba_label_image label_image_example default_anno_classes new_sample
      = (Returned (), s') ∧
    (∀ l, l ≠ label_to_ignore →
       default [] (labeled_points_by_class s' !! l) =
         points_labelled (label_image s') l (raster 2 2)) ∧
    (∀ l, labeled_points_by_class s' !! l = None ↔
          l = label_to_ignore ∨ points_labelled (label_image s') l (raster 2 2) = []).
Proof.
  apply (decode_rgba_label_image_points label_image_example default_anno_classes
           new_sample).
  intros r c _ _. apply label_image_example_known.
Defined.

(** Decoding stops at the first cell, in row-major order, whose colour is
    unknown; the cells before it have been labelled by then. *)
Lemma decode_rgba_label_image_unknown (img : matrix rgb_alpha_pixel)
    (cls : list AnnoClass) (s : sample) (before : list (Z * Z)) (r c : Z)
    (after : list (Z * Z)) :
  raster (nr img) (nc img) = before ++ (r, c) :: after →
  (∀ p, p ∈ before → known_colour cls (cell img p.1 p.2)) →
  ¬ known_colour cls (cell img r c) →
  ∃ s',
    decode_rgba_label_image img cls s
      = (Thrown (unknown_class_message (cell img r c)), s') ∧
    sample_image_filenames s' = sample_image_filenames s ∧
    input_image s' = input_image s ∧
    error s' = error s ∧
    nr (label_image s') = nr img ∧
    nc (label_image s') = nc img ∧
    ∀ p, p ∈ before → cell (label_image s') p.1 p.2 = label_at img cls p.1 p.2.
Proof.
  intros Hraster Hbefore Hunknown.
  unfold decode_rgba_label_image. rewrite for_range_raster, Hraster, for_each_app.
  set (s0 := with_labeled_points ∅ _).
  destruct (decode_positions_known img cls before Hbefore s0)
    as (s' & -> & Hfiles & Hinput & Herror & Hnr & Hnc & Hcell & _).
  simpl. unfold decode_pixel. rewrite (unknown_colour_thrown _ _ Hunknown).
  exists s'. repeat split; try done.
  intros [r' c'] Hp. simpl. rewrite Hcell. by rewrite decide_True.
Qed.

(** ** Reading a sample, case by case *)

(** X6: when the image loads, the label image loads, the two agree in
    their rows or in their columns, and every label pixel has a known
    colour, [read_sample] returns a sample without error that holds the
    image and a label image of the size of the label file with the label
    of every pixel. *)
Theorem read_sample_labelled (load_image : string → library_result (matrix Z))
    (load_rgba_image : string → library_result (matrix rgb_alpha_pixel))
    (filenames : image_filenames) (anno_classes : list AnnoClass)
    (require_ground_truth : bool) (image : matrix Z)
    (rgba_label_image : matrix rgb_alpha_pixel) :
  load_image (image_filename filenames) = Value image →
  label_filename filenames ≠ "" →
  load_rgba_image (label_filename filenames) = Value rgba_label_image →
  nr image = nr rgba_label_image ∨ nc image = nc rgba_label_image →
  (∀ r c, 0 ≤ r < nr rgba_label_image → 0 ≤ c < nc rgba_label_image →
     known_colour anno_classes (cell rgba_label_image r c)) →
  ∃ s,
    read_sample load_image load_rgba_image filenames anno_classes
      require_ground_truth = Returned s ∧
    error s = "" ∧
    sample_image_filenames s = filenames ∧
    input_image s = image ∧
    nr (label_image s) = nr rgba_label_image ∧
    nc (label_image s) = nc rgba_label_image ∧
    ∀ r c, 0 ≤ r < nr rgba_label_image → 0 ≤ c < nc rgba_label_image →
      rgba_label_to_index_label (cell rgba_label_image r c) anno_classes
        = Returned (cell (label_image s) r c).
Proof.
  intros Himage Hname Hlabel Hsize Hknown.
  apply String.eqb_neq in Hname.
  unfold read_sample, read_sample_try. rewrite Himage, Hname, Hlabel. simpl.
  assert ((nr image =? nr rgba_label_image) || (nc image =? nc rgba_label_image) = true)
    as -> by (apply orb_true_iff; rewrite !Z.eqb_eq; exact Hsize).
  destruct (decode_rgba_label_image_known rgba_label_image anno_classes
              (with_input_image image (with_image_filenames filenames new_sample))
              Hknown)
    as (s' & -> & Hfiles & Hinput & Herror & Hnr & Hnc & Hcell & _).
  exists s'. repeat split; try done.
  intros r c Hr Hc. rewrite (Hcell r c Hr Hc). unfold label_at.
  by rewrite (known_colour_returned _ _ (Hknown r c Hr Hc)) at 1.
Qed.

Lemma read_sample_labelled_witness :
  let load_rgba := λ _ : string, Value label_image_example in
  ∃ s,
    read_sample load_image_example load_rgba
      (MkImageFilenames "a.png" "a.png_mask.png") default_anno_classes true
      = Returned s ∧
    error s = "" ∧
    sample_image_filenames s = MkImageFilenames "a.png" "a.png_mask.png" ∧
    input_image s = Matrix 2 2 (λ _ _, 128) ∧
    nr (label_image s) = 2 ∧
    nc (label_image s) = 2 ∧
    ∀ r c, 0 ≤ r < 2 → 0 ≤ c < 2 →
      rgba_label_to_index_label (cell label_image_example r c) default_anno_classes
        = Returned (cell (label_image s) r c).
Proof.
  intros load_rgba.
  apply (read_sample_labelled load_image_example load_rgba
           (MkImageFilenames "a.png" "a.png_mask.png") default_anno_classes true
           (Matrix 2 2 (λ _ _, 128)) label_image_example).
  - reflexivity.
  - discriminate.
  - reflexivity.
  - by left.
  - intros r c _ _. apply label_image_example_known.
Defined.

(** X7: when the label image passes the size check and holds a pixel of
    unknown colour, the sample's error is the unknown-class message of
    the first such pixel in row-major order, as far as it reads as a C
    string: the channels are streamed as characters, so the text ends
    before the first channel that is 0.  The image stays in the sample. *)
Theorem read_sample_unknown_colour (load_image : string → library_result (matrix Z))
    (load_rgba_image : string → library_result (matrix rgb_alpha_pixel))
    (filenames : image_filenames) (anno_classes : list AnnoClass)
    (require_ground_truth : bool) (image : matrix Z)
    (rgba_label_image : matrix rgb_alpha_pixel)
    (before : list (Z * Z)) (r c : Z) (after : list (Z * Z)) :
  load_image (image_filename filenames) = Value image →
  label_filename filenames ≠ "" →
  load_rgba_image (label_filename filenames) = Value rgba_label_image →
  nr image = nr rgba_label_image ∨ nc image = nc rgba_label_image →
  raster (nr rgba_label_image) (nc rgba_label_image) = before ++ (r, c) :: after →
  (∀ p, p ∈ before → known_colour anno_classes (cell rgba_label_image p.1 p.2)) →
  ¬ known_colour anno_classes (cell rgba_label_image r c) →
  ∃ s,
    read_sample load_image load_rgba_image filenames anno_classes
      require_ground_truth = Returned s ∧
    error s = from_c_str (unknown_class_message (cell rgba_label_image r c)) ∧
    input_image s = image.
Proof.
  intros Himage Hname Hlabel Hsize Hraster Hbefore Hunknown.
  apply String.eqb_neq in Hname.
  unfold read_sample, read_sample_try. rewrite Himage, Hname, Hlabel. simpl.
  assert ((nr image =? nr rgba_label_image) || (nc image =? nc rgba_label_image) = true)
    as -> by (apply orb_true_iff; rewrite !Z.eqb_eq; exact Hsize).
  destruct (decode_rgba_label_image_unknown rgba_label_image anno_classes
              (with_input_image image (with_image_filenames filenames new_sample))
              before r c after Hraster Hbefore Hunknown)
    as (s' & -> & _ & Hinput & _).
  eexists. split; [reflexivity|]. split; [done|]. exact Hinput.
Qed.

Lemma read_sample_unknown_colour_witness :
  let mask := Matrix 1 2 (λ (_ c : Z),
    if c =? 0 then RgbAlphaPixel 0 255 0 64 else RgbAlphaPixel 65 0 66 67) in
  let load_rgba := λ _ : string, Value mask in
  ∃ s,
    read_sample load_image_example load_rgba
      (MkImageFilenames "a.png" "a.png_mask.png") default_anno_classes false
      = Returned s ∧
    error s = "Unknown class: r = A, g = " ∧
    input_image s = Matrix 2 2 (λ _ _, 128).
Proof.
  intros mask load_rgba.
  apply (read_sample_unknown_colour load_image_example load_rgba
           (MkImageFilenames "a.png" "a.png_mask.png") default_anno_classes false
           (Matrix 2 2 (λ _ _, 128)) mask [(0, 0)] 0 1 []).
  - reflexivity.
  - discriminate.
  - reflexivity.
  - by right.
  - reflexivity.
  - intros p ->%list_elem_of_singleton. right. apply list_elem_of_here.
  - intros [H|H]; [discriminate H|].
    apply list_elem_of_fmap in H as (k & Hk & Hin).
    repeat (apply elem_of_cons in Hin as [->|Hin]; [discriminate Hk|]).
    by apply elem_of_nil in Hin.
Defined.

(** X8: without a label file name, a sample whose image loads holds the
    image and no labels; its error is "No ground truth available" when
    ground truth is required and empty otherwise. *)
Theorem read_sample_without_label (load_image : string → library_result (matrix Z))
    (load_rgba_image : string → library_result (matrix rgb_alpha_pixel))
    (filenames : image_filenames) (anno_classes : list AnnoClass)
    (require_ground_truth : bool) (image : matrix Z) :
  load_image (image_filename filenames) = Value image →
  label_filename filenames = "" →
  read_sample load_image load_rgba_image filenames anno_classes require_ground_truth
    = Returned (MkSample filenames image empty_matrix ∅
                  (if require_ground_truth then "No ground truth available" else "")).
Proof.
  intros Himage Hname. unfold read_sample, read_sample_try.
  rewrite Himage, Hname. simpl. by destruct require_ground_truth.
Qed.

Lemma read_sample_without_label_witness :
  read_sample load_image_example load_rgba_image_example
    (MkImageFilenames "a.png" "") default_anno_classes true
    = Returned (MkSample (MkImageFilenames "a.png" "") (Matrix 2 2 (λ _ _, 128))
                  empty_matrix ∅ "No ground truth available").
Proof.
  apply (read_sample_without_label load_image_example load_rgba_image_example
           (MkImageFilenames "a.png" "") default_anno_classes true
           (Matrix 2 2 (λ _ _, 128))); reflexivity.
Defined.

(** ** Label images back to colours *)

Lemma index_label_to_rgba_label_not_thrown (i : Z) (cls : list AnnoClass) (what : string) :
  index_label_to_rgba_label i cls ≠ Thrown what.
Proof.
  unfold index_label_to_rgba_label. destruct (cls !! _); [|done].
  by destruct (_ =? _).
Qed.

(** In a list whose k-th class has index k, a label below the class
    count is turned into the colour of the class at that position. *)
Lemma index_label_to_rgba_label_dense (cls : list AnnoClass) (i : Z) :
  (∀ (k : nat) c, cls !! k = Some c → index c = Z.of_nat k) →
  0 ≤ i < Z.of_nat (length cls) →
  ∃ c, cls !! Z.to_nat i = Some c ∧ index c = i ∧
       index_label_to_rgba_label i cls = Returned (rgba_label c).
Proof.
  intros Hdense Hi.
  destruct (lookup_lt_is_Some_2 cls (Z.to_nat i)) as [c Hc]; [lia|].
  assert (index c = i) as Hci by (rewrite (Hdense _ _ Hc); lia).
  exists c. repeat split; [done|done|].
  unfold index_label_to_rgba_label. by rewrite Hc, Hci, Z.eqb_refl.
Qed.

Lemma index_label_to_rgba_label_out_of_range (cls : list AnnoClass) (i : Z) :
  Z.of_nat (length cls) ≤ i →
  index_label_to_rgba_label i cls = Undefined.
Proof.
  intros Hi. unfold index_label_to_rgba_label.
  by rewrite lookup_ge_None_2 by lia.
Qed.

Section EncodeProperties.

Context (idx : matrix Z) (cls : list AnnoClass).

Lemma encode_positions (ps : list (Z * Z)) :
  (∀ (k : nat) c, cls !! k = Some c → index c = Z.of_nat k) →
  (∀ p, p ∈ ps → 0 ≤ cell idx p.1 p.2 < Z.of_nat (length cls)) →
  ∀ m, ∃ m',
    for_each (λ p, encode_pixel idx cls p.1 p.2) ps m = (Returned (), m') ∧
    nr m' = nr m ∧ nc m' = nc m ∧
    (∀ r c, (r, c) ∈ ps →
       index_label_to_rgba_label (cell idx r c) cls = Returned (cell m' r c)) ∧
    (∀ r c, (r, c) ∉ ps → cell m' r c = cell m r c).
Proof.
  intros Hdense. induction ps as [|[r c] ps IH]; intros Hrange m.
  - exists m. repeat split; try done. intros r c H. by apply elem_of_nil in H.
  - simpl for_each. unfold encode_pixel at 1. simpl.
    destruct (index_label_to_rgba_label_dense cls (cell idx r c) Hdense)
      as (k & Hk & Hki & Hreturned); [apply (Hrange (r, c)); by left|].
    rewrite Hreturned.
    destruct (IH (λ p Hp, Hrange p (list_elem_of_further _ _ _ Hp))
                (assign m r c (rgba_label k)))
      as (m' & -> & Hnr & Hnc & Hin & Hout).
    exists m'. repeat split; [done|done|..].
    + intros r' c' Hp. destruct (decide ((r', c') ∈ ps)) as [Hps|Hps]; [by apply Hin|].
      apply elem_of_cons in Hp as [[= -> ->]|?]; [|done].
      rewrite Hout by done. simpl. by rewrite !Z.eqb_refl.
    + intros r' c' Hp. apply not_elem_of_cons in Hp as [Hne Hps].
      rewrite Hout by done. simpl.
      destruct ((r' =? r) && (c' =? c)) eqn:Heq; [|done].
      apply andb_prop in Heq as [->%Z.eqb_eq ->%Z.eqb_eq]. done.
Qed.

End EncodeProperties.

(** X9: for a class list whose k-th class has index k and a label image
    whose labels are all below the class count,
    [index_label_image_to_rgba_label_image] returns an image of the same
    size that holds, cell by cell, the colour key of the class the label
    names. *)
Theorem index_label_image_to_rgba_label_image_colours (index_label_image : matrix Z)
    (anno_classes : list AnnoClass) (rgba_label_image : matrix rgb_alpha_pixel) :
  (∀ (k : nat) c, anno_classes !! k = Some c → index c = Z.of_nat k) →
  (∀ r c, 0 ≤ r < nr index_label_image → 0 ≤ c < nc index_label_image →
     0 ≤ cell index_label_image r c < Z.of_nat (length anno_classes)) →
  ∃ result,
    index_label_image_to_rgba_label_image index_label_image anno_classes
      rgba_label_image = (Returned (), result) ∧
    nr result = nr index_label_image ∧
    nc result = nc index_label_image ∧
    ∀ r c, 0 ≤ r < nr index_label_image → 0 ≤ c < nc index_label_image →
      ∃ k, anno_classes !! Z.to_nat (cell index_label_image r c) = Some k ∧
           cell result r c = rgba_label k.
Proof.
  intros Hdense Hrange. unfold index_label_image_to_rgba_label_image.
  rewrite for_range_raster.
  destruct (encode_positions index_label_image anno_classes
              (raster (nr index_label_image) (nc index_label_image)) Hdense
              (λ p, match p with (r, c) => λ Hp,
                 match proj1 (elem_of_raster _ _ r c) Hp with
                 | conj Hr Hc => Hrange r c Hr Hc end end)
              (set_size_rgba (nr index_label_image) (nc index_label_image)
                 rgba_label_image))
    as (result & -> & Hnr & Hnc & Hin & _).
  exists result. repeat split; [done|done|].
  intros r c Hr Hc.
  destruct (index_label_to_rgba_label_dense anno_classes (cell index_label_image r c)
              Hdense (Hrange r c Hr Hc)) as (k & Hk & _ & Hreturned).
  exists k. split; [done|].
  specialize (Hin r c (proj2 (elem_of_raster _ _ r c) (conj Hr Hc))).
  congruence.
Qed.

Lemma index_label_to_rgba_label_example_dense :
  ∀ (k : nat) c, default_anno_classes !! k = Some c → index c = Z.of_nat k.
Proof. intros [|[|k]] c; simpl; intros [= <-] || intros [=]; reflexivity. Qed.

Lemma index_label_image_to_rgba_label_image_colours_witness :
  let labels := Matrix 2 2 (λ r c : Z, if r =? c then 1 else 0) in
  ∃ result,
    index_label_image_to_rgba_label_image labels default_anno_classes
      (Matrix 0 0 (λ _ _, RgbAlphaPixel 0 0 0 0)) = (Returned (), result) ∧
    nr result = 2 ∧
    nc result = 2 ∧
    ∀ r c, 0 ≤ r < 2 → 0 ≤ c < 2 →
      ∃ k, default_anno_classes !! Z.to_nat (cell labels r c) = Some k ∧
           cell result r c = rgba_label k.
Proof.
  intros labels.
  apply (index_label_image_to_rgba_label_image_colours labels default_anno_classes).
  - apply index_label_to_rgba_label_example_dense.
  - intros r c _ _. simpl. destruct (r =? c); lia.
Defined.

Lemma for_each_undefined {S A} (body : A → statement S) (l : list A) (x : A) :
  (∀ y s what, (body y s).1 ≠ Thrown what) →
  x ∈ l →
  (∀ s, (body x s).1 = Undefined) →
  ∀ s, (for_each body l s).1 = Undefined.
Proof.
  intros Hnothrow Hx Hundef. induction l as [|y l IH]; intros s.
  - by apply elem_of_nil in Hx.
  - simpl. pose proof (Hnothrow y s) as Hy.
    destruct (body y s) as [[[]|what|] s'] eqn:Hbody; simpl in *.
    + apply elem_of_cons in Hx as [->|Hx]; [|by apply IH].
      specialize (Hundef s). by rewrite Hbody in Hundef.
    + by destruct (Hy what).
    + done.
Qed.

(** X10: a label image that holds, anywhere, a label that is not below
    the class count has no colour image: the conversion runs into the
    vector's end.  With fewer than 65536 classes this is so for every
    image that holds the ignore label. *)
Theorem index_label_image_to_rgba_label_image_out_of_range
    (index_label_image : matrix Z) (anno_classes : list AnnoClass)
    (rgba_label_image : matrix rgb_alpha_pixel) (r c : Z) :
  0 ≤ r < nr index_label_image →
  0 ≤ c < nc index_label_image →
  Z.of_nat (length anno_classes) ≤ cell index_label_image r c →
  (index_label_image_to_rgba_label_image index_label_image anno_classes
     rgba_label_image).1 = Undefined.
Proof.
  intros Hr Hc Hlabel. unfold index_label_image_to_rgba_label_image.
  rewrite for_range_raster.
  apply (for_each_undefined _ _ (r, c)).
  - intros [r' c'] m what. unfold encode_pixel. simpl.
    pose proof (index_label_to_rgba_label_not_thrown
                  (cell index_label_image r' c') anno_classes) as Hnt.
    destruct (index_label_to_rgba_label _ _); simpl; [done|by destruct (Hnt what0)|done].
  - by apply elem_of_raster.
  - intros m. unfold encode_pixel. simpl.
    by rewrite index_label_to_rgba_label_out_of_range.
Qed.

Lemma index_label_image_to_rgba_label_image_out_of_range_witness :
  (index_label_image_to_rgba_label_image
     (Matrix 2 2 (λ r c : Z, if r =? c then label_to_ignore else 0))
     default_anno_classes (Matrix 0 0 (λ _ _, RgbAlphaPixel 0 0 0 0))).1 = Undefined.
Proof.
  apply (index_label_image_to_rgba_label_image_out_of_range _ _ _ 1 1);
    simpl; unfold label_to_ignore; lia.
Defined.

(** The colour key of a class is mapped to that class's index when the
    keys are distinct and none is the reserved colour. *)
Lemma rgba_label_to_index_label_of_class (cls : list AnnoClass) (k : nat) (c : AnnoClass) :
  NoDup (rgba_label <$> cls) →
  rgba_ignore_label ∉ rgba_label <$> cls →
  cls !! k = Some c →
  rgba_label_to_index_label (rgba_label c) cls = Returned (index c).
Proof.
  intros Hnd Hign Hc. unfold rgba_label_to_index_label.
  assert (pixel_eq (rgba_label c) rgba_ignore_label = false) as ->.
  { apply pixel_eq_false. intros Heq. apply Hign. rewrite <- Heq.
    apply list_elem_of_fmap. exists c. split; [done|].
    by apply list_elem_of_lookup_2 with k. }
  by rewrite (find_class_index_at _ _ _ Hnd Hc).
Qed.

(** X11: labels to colours and back.  With distinct colour keys, none of
    them reserved, and the k-th class carrying index k, a label image
    whose labels are all below the class count is turned into a colour
    image that decodes to the same labels. *)
Theorem encode_decode_round_trip (index_label_image : matrix Z)
    (anno_classes : list AnnoClass) (rgba_label_image : matrix rgb_alpha_pixel)
    (s : sample) :
  NoDup (rgba_label <$> anno_classes) →
  rgba_ignore_label ∉ rgba_label <$> anno_classes →
  (∀ (k : nat) c, anno_classes !! k = Some c → index c = Z.of_nat k) →
  (∀ r c, 0 ≤ r < nr index_label_image → 0 ≤ c < nc index_label_image →
     0 ≤ cell index_label_image r c < Z.of_nat (length anno_classes)) →
  ∃ colours s',
    index_label_image_to_rgba_label_image index_label_image anno_classes
      rgba_label_image = (Returned (), colours) ∧
    decode_rgba_label_image colours anno_classes s = (Returned (), s') ∧
    nr (label_image s') = nr index_label_image ∧
    nc (label_image s') = nc index_label_image ∧
    ∀ r c, 0 ≤ r < nr index_label_image → 0 ≤ c < nc index_label_image →
      cell (label_image s') r c = cell index_label_image r c.
Proof.
  intros Hnd Hign Hdense Hrange. unfold index_label_image_to_rgba_label_image.
  rewrite for_range_raster.
  assert (∀ p, p ∈ raster (nr index_label_image) (nc index_label_image) →
            0 ≤ cell index_label_image p.1 p.2 < Z.of_nat (length anno_classes))
    as Hall by (intros [r c] [Hr Hc]%elem_of_raster; by apply Hrange).
  destruct (encode_positions index_label_image anno_classes _ Hdense Hall
              (set_size_rgba (nr index_label_image) (nc index_label_image)
                 rgba_label_image))
    as (colours & -> & Hnr & Hnc & Hin & _).
  simpl in Hnr, Hnc.
  assert (∀ r c, 0 ≤ r < nr colours → 0 ≤ c < nc colours →
            ∃ k, anno_classes !! Z.to_nat (cell index_label_image r c) = Some k ∧
                 index k = cell index_label_image r c ∧
                 cell colours r c = rgba_label k) as Hcolours.
  { intros r c Hr Hc. rewrite Hnr in Hr. rewrite Hnc in Hc.
    destruct (index_label_to_rgba_label_dense anno_classes
                (cell index_label_image r c) Hdense (Hrange r c Hr Hc))
      as (k & Hk & Hki & Hreturned).
    exists k. repeat split; [done|done|].
    specialize (Hin r c (proj2 (elem_of_raster _ _ r c) (conj Hr Hc))). congruence. }
  assert (∀ r c, 0 ≤ r < nr colours → 0 ≤ c < nc colours →
            known_colour anno_classes (cell colours r c)) as Hknown.
  { intros r c Hr Hc. destruct (Hcolours r c Hr Hc) as (k & Hk & _ & ->).
    right. apply list_elem_of_fmap. exists k. split; [done|].
    by apply list_elem_of_lookup_2 with (Z.to_nat (cell index_label_image r c)). }
  destruct (decode_rgba_label_image_known colours anno_classes s Hknown)
    as (s' & Hrun & _ & _ & _ & Hnr' & Hnc' & Hcell & _).
  exists colours, s'. repeat split; [done|congruence|congruence|].
  intros r c Hr Hc. rewrite <- Hnr in Hr. rewrite <- Hnc in Hc.
  rewrite (Hcell r c Hr Hc). unfold label_at.
  destruct (Hcolours r c Hr Hc) as (k & Hk & Hki & ->).
  by rewrite (rgba_label_to_index_label_of_class _ _ _ Hnd Hign Hk).
Qed.

Lemma encode_decode_round_trip_witness :
  let labels := Matrix 2 2 (λ r c : Z, if r =? c then 1 else 0) in
  ∃ colours s',
    index_label_image_to_rgba_label_image labels default_anno_classes
      (Matrix 0 0 (λ _ _, RgbAlphaPixel 0 0 0 0)) = (Returned (), colours) ∧
    decode_rgba_label_image colours default_anno_classes new_sample
      = (Returned (), s') ∧
    nr (label_image s') = 2 ∧
    nc (label_image s') = 2 ∧
    ∀ r c, 0 ≤ r < 2 → 0 ≤ c < 2 → cell (label_image s') r c = cell labels r c.
Proof.
  intros labels.
  apply (encode_decode_round_trip labels default_anno_classes).
  - apply (bool_decide_unpack _). vm_compute. reflexivity.
  - apply (bool_decide_unpack _). vm_compute. reflexivity.
  - apply index_label_to_rgba_label_example_dense.
  - intros r c _ _. simpl. destruct (r =? c); lia.
Defined.

(** X12: colours to labels and back.  When the k-th class carries index
    k and every pixel of a label image in colours has the colour key of
    some class (none is the reserved colour), the decoded label image is
    turned back into the same colours. *)
Theorem decode_encode_round_trip (rgba_label_image : matrix rgb_alpha_pixel)
    (anno_classes : list AnnoClass) (s : sample)
    (target : matrix rgb_alpha_pixel) :
  (∀ (k : nat) c, anno_classes !! k = Some c → index c = Z.of_nat k) →
  (∀ r c, 0 ≤ r < nr rgba_label_image → 0 ≤ c < nc rgba_label_image →
     cell rgba_label_image r c ≠ rgba_ignore_label ∧
     cell rgba_label_image r c ∈ rgba_label <$> anno_classes) →
  ∃ s' colours,
    decode_rgba_label_image rgba_label_image anno_classes s = (Returned (), s') ∧
    index_label_image_to_rgba_label_image (label_image s') anno_classes target
      = (Returned (), colours) ∧
    nr colours = nr rgba_label_image ∧
    nc colours = nc rgba_label_image ∧
    ∀ r c, 0 ≤ r < nr rgba_label_image → 0 ≤ c < nc rgba_label_image →
      cell colours r c = cell rgba_label_image r c.
Proof.
  intros Hdense Hpixels.
  assert (∀ r c, 0 ≤ r < nr rgba_label_image → 0 ≤ c < nc rgba_label_image →
            known_colour anno_classes (cell rgba_label_image r c)) as Hknown
    by (intros r c Hr Hc; right; by apply Hpixels).
  destruct (decode_rgba_label_image_known rgba_label_image anno_classes s Hknown)
    as (s' & Hrun & _ & _ & _ & Hnr & Hnc & Hcell & _).
  assert (∀ r c, 0 ≤ r < nr rgba_label_image → 0 ≤ c < nc rgba_label_image →
            ∃ k, anno_classes !! Z.to_nat (cell (label_image s') r c) = Some k ∧
                 0 ≤ cell (label_image s') r c < Z.of_nat (length anno_classes) ∧
                 rgba_label k = cell rgba_label_image r c) as Hback.
  { intros r c Hr Hc. rewrite (Hcell r c Hr Hc). unfold label_at.
    destruct (Hpixels r c Hr Hc) as [Hne Hin].
    unfold rgba_label_to_index_label. apply pixel_eq_false in Hne. rewrite Hne.
    destruct (find_class_index _ _) as [i|] eqn:Hfind;
      [|by apply find_class_index_None in Hfind].
    apply find_class_index_Some in Hfind as (before & k & after & Hcls & Hk & <- & _).
    assert (anno_classes !! length before = Some k) as Hlookup
      by (by rewrite Hcls, lookup_app_r, Nat.sub_diag by lia).
    rewrite (Hdense _ _ Hlookup), Nat2Z.id. exists k. repeat split; [done|lia|..|done].
    apply lookup_lt_Some in Hlookup. lia. }
  assert (∀ p, p ∈ raster (nr (label_image s')) (nc (label_image s')) →
            0 ≤ cell (label_image s') p.1 p.2 < Z.of_nat (length anno_classes))
    as Hall.
  { rewrite Hnr, Hnc. intros [r c] [Hr Hc]%elem_of_raster. simpl.
    by destruct (Hback r c Hr Hc) as (k & _ & ? & _). }
  destruct (encode_positions (label_image s') anno_classes _ Hdense Hall
              (set_size_rgba (nr (label_image s')) (nc (label_image s')) target))
    as (colours & Hrun' & Hnr' & Hnc' & Hin & _).
  exists s', colours. split; [done|]. split.
  { unfold index_label_image_to_rgba_label_image. by rewrite for_range_raster. }
  simpl in Hnr', Hnc'. repeat split; [congruence|congruence|].
  intros r c Hr Hc. destruct (Hback r c Hr Hc) as (k & Hk & _ & <-).
  assert ((r, c) ∈ raster (nr (label_image s')) (nc (label_image s'))) as Hp
    by (rewrite Hnr, Hnc; by apply elem_of_raster).
  specialize (Hin r c Hp).
  unfold index_label_to_rgba_label in Hin. rewrite Hk in Hin.
  destruct (index k =? _); congruence.
Qed.

Lemma decode_encode_round_trip_witness :
  let colours_in := Matrix 2 2 (λ r c : Z,
    if r =? c then RgbAlphaPixel 255 0 0 128 else RgbAlphaPixel 0 255 0 64) in
  ∃ s' colours,
    decode_rgba_label_image colours_in default_anno_classes new_sample
      = (Returned (), s') ∧
    index_label_image_to_rgba_label_image (label_image s') default_anno_classes
      (Matrix 0 0 (λ _ _, RgbAlphaPixel 0 0 0 0)) = (Returned (), colours) ∧
    nr colours = 2 ∧
    nc colours = 2 ∧
    ∀ r c, 0 ≤ r < 2 → 0 ≤ c < 2 → cell colours r c = cell colours_in r c.
Proof.
  intros colours_in.
  apply (decode_encode_round_trip colours_in default_anno_classes).
  - apply index_label_to_rgba_label_example_dense.
  - intros r c _ _. simpl. destruct (r =? c); (split; [discriminate|]).
    + apply list_elem_of_further, list_elem_of_here.
    + apply list_elem_of_here.
Defined.

(** ** Class definitions, entry by entry *)


(** On an entry of the schema the iteration returns the entry's class,
    unless its colour key is the reserved colour. *)
Lemma parse_anno_class_of_entry (i : Z) (entry : json) :
  class_entry entry = true →
  ∃ c, class_of_entry i entry = Some c ∧ colour_key entry = Some (rgba_label c) ∧
       parse_anno_class i entry =
         if pixel_eq (rgba_label c) rgba_ignore_label
         then Thrown reserved_message else Returned c.
Proof.
  unfold class_entry, class_of_entry, colour_key. intros H.
  destruct entry as [| | | | |?|ms]; try discriminate H.
  destruct (find_member ms "name") as [[| | | |name| |]|] eqn:Hname; try discriminate H.
  destruct (color_of (JObject ms)) as [[[[r g] b] a]|] eqn:Hcolor; [|discriminate H].
  apply color_of_inv in Hcolor as (ms' & cs & [= <-] & Hc & Hr & Hg & Hb & Ha).
  apply andb_prop in H as [H Hia]. apply andb_prop in H as [H Hib].
  apply andb_prop in H as [Hir Hig].
  eexists. split; [reflexivity|]. split; [reflexivity|].
  unfold parse_anno_class. simpl. rewrite Hname, Hc. simpl.
  rewrite Hr, Hg, Hb, Ha. simpl. rewrite Hir; simpl. rewrite Hig; simpl.
  rewrite Hib; simpl. rewrite Hia; simpl.
  by destruct (pixel_eq _ _).
Qed.



Lemma parse_anno_classes_loop_schema_returns (items : list json) :
  ∀ (i : Z) (acc : list AnnoClass),
  Forall (λ entry, class_entry entry = true) items →
  Forall (λ entry, colour_key entry ≠ Some rgba_ignore_label) items →
  ∃ cs, parse_anno_classes_loop i items acc = Returned cs.
Proof.
  induction items as [|entry rest IH]; intros i acc Hall Hnone; simpl.
  - by eexists.
  - apply Forall_cons in Hall as [He Hall]. apply Forall_cons in Hnone as [Hk Hnone].
    destruct (parse_anno_class_of_entry i entry He) as (c & _ & Hkey & ->).
    destruct (pixel_eq (rgba_label c) rgba_ignore_label) eqn:Heq.
    + apply pixel_eq_true in Heq. rewrite Hkey, Heq in Hk. done.
    + simpl. by apply IH.
Qed.

Lemma parse_anno_classes_loop_schema_reserved (items : list json) :
  ∀ (i : Z) (acc : list AnnoClass),
  Forall (λ entry, class_entry entry = true) items →
  Exists (λ entry, colour_key entry = Some rgba_ignore_label) items →
  parse_anno_classes_loop i items acc = Thrown reserved_message.
Proof.
  induction items as [|entry rest IH]; intros i acc Hall Hex; simpl.
  - inversion Hex.
  - apply Forall_cons in Hall as [He Hall].
    destruct (parse_anno_class_of_entry i entry He) as (c & _ & Hkey & ->).
    destruct (pixel_eq (rgba_label c) rgba_ignore_label) eqn:Heq; [done|].
    simpl. apply Exists_cons in Hex as [Hres|Hex]; [|by apply IH].
    apply pixel_eq_false in Heq. rewrite Hkey in Hres. congruence.
Qed.

(** X14: a document whose entries all follow the schema is accepted when
    no entry's colour components, converted to [unsigned char], give
    (0,0,0,0), and is refused with the reserved-colour error when some
    entry's do; so (256,0,0,0) is refused like (0,0,0,0). *)
Theorem parse_anno_classes_schema (Parse : string → option json)
    (json_text : string) (members : list (string * json)) (items : list json) :
  json_text ≠ "" →
  Parse json_text = Some (JObject members) →
  find_member members "anno_classes" = Some (JArray items) →
  Forall (λ entry, class_entry entry = true) items →
  (Forall (λ entry, colour_key entry ≠ Some rgba_ignore_label) items →
   ∃ cs, parse_anno_classes Parse json_text = Returned cs) ∧
  (Exists (λ entry, colour_key entry = Some rgba_ignore_label) items →
   parse_anno_classes Parse json_text = Thrown reserved_message).
Proof.
  intros Hne Hparse Harr Hall. unfold parse_anno_classes.
  destruct (String.eqb_spec json_text "") as [->|_]; [done|].
  rewrite Hparse, Harr. split.
  - by apply parse_anno_classes_loop_schema_returns.
  - by apply parse_anno_classes_loop_schema_reserved.
Qed.

Lemma parse_anno_classes_schema_witness :
  let items := [entry_of "clean" 0 255 0 64; entry_of "void" 256 0 (-256) 512] in
  let Parse := λ _ : string, Some (document_of items) in
  (Forall (λ entry, colour_key entry ≠ Some rgba_ignore_label) items →
   ∃ cs, parse_anno_classes Parse "{'anno_classes': [clean, void]}" = Returned cs) ∧
  (Exists (λ entry, colour_key entry = Some rgba_ignore_label) items →
   parse_anno_classes Parse "{'anno_classes': [clean, void]}"
     = Thrown reserved_message).
Proof.
  intros items Parse.
  apply (parse_anno_classes_schema Parse _ [("anno_classes", JArray items)] items).
  - discriminate.
  - reflexivity.
  - reflexivity.
  - repeat constructor.
Defined.

(** ** Gains, whenever the parser returns *)

Section GainResults.

Context {double : Type} (zero : double) (stod : string → library_result double).

(** The loop returns only after every string has parsed to an index
    below the class count; the vector keeps its length. *)
Lemma parse_class_specific_values_loop_returned (n : Z) (strs : list string) :
  ∀ (vals vec : list double),
  parse_class_specific_values_loop stod strs n vals = Returned vec →
  ∃ vs,
    Forall2 (λ s v, parse_class_specific_value stod s = Returned v) strs vs ∧
    Forall (λ v, class_index v < n) vs ∧
    length vec = length vals.
Proof.
  induction strs as [|s strs IH]; intros vals vec H; simpl in H.
  - injection H as <-. exists []. by repeat constructor.
  - apply bind_returned in H as (v & Hv & H).
    destruct (class_index v >=? n) eqn:Hge; [done|].
    rewrite Z.geb_leb in Hge. apply Z.leb_gt in Hge.
    apply IH in H as (vs & Hvs & Hrange & Hlen).
    exists (v :: vs). repeat split; [by constructor|by constructor|].
    by rewrite Hlen, length_insert.
Qed.

(** The error of the first string that is not acceptable is the error of
    the whole list. *)
Lemma parse_class_specific_values_loop_first (n : Z) (good : list string)
    (vs : list (class_specific_value_type double)) (rest : list string) :
  Forall2 (λ s v, parse_class_specific_value stod s = Returned v) good vs →
  Forall (λ v, class_index v < n) vs →
  ∀ vals, parse_class_specific_values_loop stod (good ++ rest) n vals =
    parse_class_specific_values_loop stod rest n
      (foldl (λ acc v, <[Z.to_nat (class_index v) := value v]> acc) vals vs).
Proof.
  induction 1 as [|s v good vs Hs _ IH]; intros Hrange vals; [done|].
  apply Forall_cons in Hrange as [Hv Hrange].
  simpl. rewrite Hs. simpl.
  rewrite Z.geb_leb. destruct (Z.leb_spec n (class_index v)); [lia|].
  by apply IH.
Qed.

End GainResults.

(** X15: [parse_class_specific_values] returns only when every
    specification string is well formed with an index below the class
    count, and what it returns has exactly class-count entries. *)
Theorem parse_class_specific_values_returned {double} (zero : double)
    (stod : string → library_result double) (strs : list string) (n : Z)
    (vec : list double) :
  0 ≤ n →
  parse_class_specific_values zero stod strs n = Returned vec →
  Z.of_nat (length vec) = n ∧
  ∃ vs,
    Forall2 (λ s v, parse_class_specific_value stod s = Returned v) strs vs ∧
    Forall (λ v, 0 ≤ class_index v < n) vs.
Proof.
  intros Hn H. unfold parse_class_specific_values in H.
  apply parse_class_specific_values_loop_returned in H as (vs & Hvs & Hrange & Hlen).
  split; [rewrite Hlen, length_replicate; lia|].
  exists vs. split; [done|].
  pose proof (parsed_indices_nonneg stod strs vs Hvs) as Hnonneg.
  rewrite Forall_forall in Hrange, Hnonneg. apply Forall_forall. intros v Hv.
  specialize (Hrange v Hv). specialize (Hnonneg v Hv). lia.
Qed.

Lemma parse_class_specific_values_returned_witness :
  Z.of_nat (length [QArith_base.Qmake 0 1; QArith_base.Qmake (-5) 10; QArith_base.Qmake 0 1]) = 3 ∧
  ∃ vs,
    Forall2 (λ s v, parse_class_specific_value stod_decimal s = Returned v)
      ["1:-0.5"] vs ∧
    Forall (λ v, 0 ≤ class_index v < 3) vs.
Proof.
  apply (parse_class_specific_values_returned (QArith_base.Qmake 0 1) stod_decimal ["1:-0.5"] 3).
  - lia.
  - reflexivity.
Defined.

(** X16: the specifications are taken in order: when the strings before
    one are well formed with indices below the class count, an exception
    from parsing that one is the exception of the whole call, and an index
    of it that is not below the class count gives the error naming that
    index; the strings after it play no part. *)
Theorem parse_class_specific_values_first_error {double} (zero : double)
    (stod : string → library_result double) (n : Z) (good : list string)
    (vs : list (class_specific_value_type double)) (bad : string)
    (rest : list string) :
  Forall2 (λ s v, parse_class_specific_value stod s = Returned v) good vs →
  Forall (λ v, class_index v < n) vs →
  (∀ what, parse_class_specific_value stod bad = Thrown what →
     parse_class_specific_values zero stod (good ++ bad :: rest) n = Thrown what) ∧
  (∀ v, parse_class_specific_value stod bad = Returned v → n ≤ class_index v →
     parse_class_specific_values zero stod (good ++ bad :: rest) n
       = Thrown (index_error (class_index v) n)).
Proof.
  intros Hgood Hrange. unfold parse_class_specific_values.
  rewrite (parse_class_specific_values_loop_first stod n good vs _ Hgood Hrange).
  split.
  - intros what Hbad. simpl. by rewrite Hbad.
  - intros v Hbad Hv. simpl. rewrite Hbad. simpl. rewrite Z.geb_leb.
    by destruct (Z.leb_spec n (class_index v)); [|lia].
Qed.

Lemma parse_class_specific_values_first_error_witness :
  (∀ what, parse_class_specific_value stod_decimal "7:0.5" = Thrown what →
     parse_class_specific_values (QArith_base.Qmake 0 1) stod_decimal (["1:0.5"] ++ "7:0.5" :: ["x"]) 2
       = Thrown what) ∧
  (∀ v, parse_class_specific_value stod_decimal "7:0.5" = Returned v →
     2 ≤ class_index v →
     parse_class_specific_values (QArith_base.Qmake 0 1) stod_decimal (["1:0.5"] ++ "7:0.5" :: ["x"]) 2
       = Thrown (index_error (class_index v) 2)).
Proof.
  apply (parse_class_specific_values_first_error (QArith_base.Qmake 0 1) stod_decimal 2 ["1:0.5"]
           [MkClassSpecificValue 1 (QArith_base.Qmake 5 10)] "7:0.5" ["x"]).
  - repeat constructor.
  - repeat constructor.
Defined.

(** ** Start-up of main *)

(** X17: [main] gets past its start-up only with at least 2 and fewer
    than 65536 classes, and then with one gain per class, which is what
    [parse_class_specific_values] returned for the class count. *)
Theorem main_startup_returned (Parse : string → option json) {double} (zero : double)
    (stod : string → library_result double) (json_text : string)
    (gain_options : list string) (anno_classes : list AnnoClass)
    (gains : list double) :
  main_startup Parse zero stod json_text gain_options = Returned (anno_classes, gains) →
  parse_anno_classes Parse json_text = Returned anno_classes ∧
  2 ≤ Z.of_nat (length anno_classes) < 65536 ∧
  parse_class_specific_values zero stod gain_options (Z.of_nat (length anno_classes))
    = Returned gains ∧
  length gains = length anno_classes.
Proof.
  unfold main_startup. intros H.
  apply bind_returned in H as (cs & Hcs & H).
  destruct (Z.ltb_spec (Z.of_nat (length cs)) 2) as [?|Hmin]; [done|].
  apply bind_returned in H as (gs & Hgs & H).
  destruct (Nat.eqb_spec (length gs) (length cs)) as [Hlen|?]; [|done].
  injection H as <- <-.
  pose proof Hgs as Hgs'. unfold parse_class_specific_values in Hgs'.
  apply parse_class_specific_values_loop_returned in Hgs' as (_ & _ & _ & Hl).
  rewrite length_replicate in Hl. unfold to_uint16 in *.
  assert (Z.of_nat (length cs) mod 2 ^ 16 = Z.of_nat (length cs)) as Hsmall.
  { pose proof (Z.mod_pos_bound (Z.of_nat (length cs)) (2 ^ 16)). lia. }
  rewrite Hsmall in Hgs. repeat split; try done.
  pose proof (Z.mod_pos_bound (Z.of_nat (length cs)) (2 ^ 16)). lia.
Qed.

Lemma main_startup_returned_witness :
  parse_anno_classes (λ _, None) "" = Returned default_anno_classes ∧
  2 ≤ Z.of_nat (length default_anno_classes) < 65536 ∧
  parse_class_specific_values (QArith_base.Qmake 0 1) stod_decimal ["1:-0.5"]
    (Z.of_nat (length default_anno_classes)) = Returned [QArith_base.Qmake 0 1; QArith_base.Qmake (-5) 10] ∧
  length [QArith_base.Qmake 0 1; QArith_base.Qmake (-5) 10] = length default_anno_classes.
Proof.
  apply (main_startup_returned (λ _, None) (QArith_base.Qmake 0 1) stod_decimal "" ["1:-0.5"]).
  reflexivity.
Defined.

(** X18: a class-definition document with fewer than two classes, such
    as one with an empty [anno_classes] array, is accepted by
    [parse_anno_classes] and then refused by [main]: the start-up throws
    before the gains are looked at and before any thread is started. *)
Theorem main_requires_two_classes (Parse : string → option json) {double}
    (zero : double) (stod : string → library_result double)
    {annonet_infer_temp : Type}
    (annonet_infer : list double → matrix Z → matrix Z → annonet_infer_temp →
                     library_result (matrix Z * annonet_infer_temp))
    (json_text : string) (gain_options : list string) (anno_classes : list AnnoClass)
    (readers writers : Z) (dequeued : list DecodedSample) (temp0 : annonet_infer_temp) :
  parse_anno_classes Parse json_text = Returned anno_classes →
  (length anno_classes < 2)%nat →
  main_startup Parse zero stod json_text gain_options = Thrown cassert_message ∧
  main Parse zero stod annonet_infer json_text gain_options readers writers
    dequeued temp0 = MkRun 0 0 (Thrown cassert_message) [].
Proof.
  intros Hcs Hlen.
  assert (main_startup Parse zero stod json_text gain_options
            = Thrown cassert_message) as Hstart.
  { unfold main_startup. rewrite Hcs. simpl.
    by destruct (Z.ltb_spec (Z.of_nat (length anno_classes)) 2); [|lia]. }
  split; [done|]. unfold main. by rewrite Hstart.
Qed.

Lemma main_requires_two_classes_witness :
  let infer := λ (_ : list QArith_base.Q) (_ p : matrix Z) (t : unit), Value (p, t) in
  let Parse := λ _ : string, Some (document_of []) in
  main_startup Parse (QArith_base.Qmake 0 1) stod_decimal "{'anno_classes': []}" ["not a gain"]
    = Thrown cassert_message ∧
  main Parse (QArith_base.Qmake 0 1) stod_decimal infer "{'anno_classes': []}" ["not a gain"] 4 4 [] ()
    = MkRun 0 0 (Thrown cassert_message) [].
Proof.
  intros infer Parse.
  apply (main_requires_two_classes Parse (QArith_base.Qmake 0 1) stod_decimal infer
           "{'anno_classes': []}" ["not a gain"] []).
  - reflexivity.
  - simpl. lia.
Defined.

(** ** The main loop, run to its end *)

Section MainLoopRuns.

Context {double annonet_infer_temp : Type}.
Context (annonet_infer : list double → matrix Z → matrix Z → annonet_infer_temp →
                         library_result (matrix Z * annonet_infer_temp)).
Context (gains : list double).


End MainLoopRuns.




(** ** Finding the image files *)

Lemma substring_whole (s : string) : String.substring 0 (String.length s) s = s.
Proof. induction s as [|a s IH]; simpl; [done|]. by rewrite IH. Qed.

Lemma substring_after (front ending : string) :
  String.substring (String.length front) (String.length ending) (front +:+ ending)
    = ending.
Proof. induction front as [|a front IH]; simpl; [apply substring_whole|done]. Qed.

Lemma substring_split (s : string) :
  ∀ n m : nat, (n + m)%nat = String.length s →
  s = String.substring 0 n s +:+ String.substring n m s.
Proof.
  induction s as [|a s IH]; intros n m Hlen; simpl in Hlen.
  - destruct n, m; try done.
  - destruct n as [|n]; simpl.
    + destruct m as [|m]; [done|]. simpl. injection Hlen as Hlen.
      rewrite Hlen. by rewrite substring_whole.
    + change (String a s = String a (String.substring 0 n s +:+ String.substring n m s)).
      f_equal. apply IH. lia.
Qed.

Lemma string_length_append (s t : string) :
  String.length (s +:+ t) = (String.length s + String.length t)%nat.
Proof. induction s as [|a s IH]; simpl; [done|]. by rewrite IH. Qed.

(** [match_ending] tests for a suffix of the file's name. *)
Lemma match_ending_ends_with (ending : string) (f : file) :
  match_ending ending f = true ↔ ends_with (name f) ending.
Proof.
  unfold match_ending, ends_with, substr, str_length. split.
  - destruct (Z.ltb_spec (Z.of_nat (String.length (name f)))
                (Z.of_nat (String.length ending))) as [?|Hle]; [done|].
    intros Heq%String.eqb_eq.
    replace (Z.to_nat (Z.min _ _)) with (String.length ending) in Heq by lia.
    set (k := Z.to_nat (Z.of_nat (String.length (name f))
                        - Z.of_nat (String.length ending))) in *.
    exists (String.substring 0 k (name f)).
    rewrite (substring_split (name f) k (String.length ending)) at 1 by lia.
    by rewrite Heq.
  - intros [front ->]. rewrite string_length_append.
    destruct (Z.ltb_spec (Z.of_nat (String.length front + String.length ending))
                (Z.of_nat (String.length ending))) as [?|_]; [lia|].
    apply String.eqb_eq.
    replace (Z.to_nat (Z.of_nat (String.length front + String.length ending)
                       - Z.of_nat (String.length ending)))
      with (String.length front) by lia.
    replace (Z.to_nat (Z.min _ _)) with (String.length ending) by lia.
    apply substring_after.
Qed.

(** X21: a file is taken as an image exactly when its name ends in
    .jpeg, .jpg or .png and in neither _mask.png nor _result.png. *)
Theorem is_image_file_endings (f : file) :
  is_image_file f = true ↔
    (ends_with (name f) ".jpeg" ∨ ends_with (name f) ".jpg" ∨ ends_with (name f) ".png") ∧
    ¬ ends_with (name f) "_mask.png" ∧
    ¬ ends_with (name f) "_result.png".
Proof.
  unfold is_image_file. rewrite <- !match_ending_ends_with.
  destruct (match_ending "_mask.png" f), (match_ending "_result.png" f),
    (match_ending ".jpeg" f), (match_ending ".jpg" f), (match_ending ".png" f);
    simpl; intuition congruence.
Qed.

Section FilesProperties.

Context (file_exists : string → bool) (require_ground_truth : bool).

Lemma add_image_file_kept (results : list image_filenames) (console : list string)
    (f : file) :
  add_image_file file_exists require_ground_truth (results, console) f =
    (results ++ (if kept file_exists require_ground_truth f
                 then [filenames_of file_exists f] else []),
     console ++ [console_line file_exists require_ground_truth f]).
Proof.
  unfold add_image_file, console_line, kept, filenames_of, mask_name.
  destruct (file_exists _), require_ground_truth; simpl; by rewrite ?app_nil_r.
Qed.

Lemma add_image_files (files : list file) :
  ∀ results console,
  foldl (add_image_file file_exists require_ground_truth) (results, console) files =
    (results ++ (filenames_of file_exists
                   <$> filter (λ f, kept file_exists require_ground_truth f) files),
     console ++ (console_line file_exists require_ground_truth <$> files)).
Proof.
  induction files as [|f files IH]; intros results console; cbn [foldl].
  - by rewrite !app_nil_r.
  - rewrite add_image_file_kept, IH, filter_cons, <- !app_assoc.
    by destruct (kept file_exists require_ground_truth f).
Qed.

End FilesProperties.

(** X22: when the directory can be listed, [find_image_files] returns
    one pair per image file that it keeps, in the order of the listing;
    the pair holds the file's full name and, when a file named after it
    with the suffix _mask.png can be opened, that name, otherwise an empty
    label name.  With [require_ground_truth] only files with such a mask
    are kept; without, every image file is. *)
Theorem find_image_files_results (directory_tree : string → library_result (list file))
    (file_exists : string → bool) (anno_data_folder : string)
    (require_ground_truth : bool) (tree : list file) :
  directory_tree anno_data_folder = Value tree →
  ∃ console,
    find_image_files directory_tree file_exists anno_data_folder require_ground_truth
      = Returned
          (filenames_of file_exists
             <$> filter (λ f, kept file_exists require_ground_truth f)
                   (filter (λ f, is_image_file f) tree),
           console).
Proof.
  intros Htree. unfold find_image_files, get_files_in_directory_tree.
  rewrite Htree. simpl. rewrite add_image_files. by eexists.
Qed.

(** X23: for every image file of the listing, in order, one line goes to
    the console: "Added file " and its full name when the pair is kept,
    and otherwise a warning that ends after "unable to open " without
    naming any file. *)
Theorem find_image_files_console (directory_tree : string → library_result (list file))
    (file_exists : string → bool) (anno_data_folder : string)
    (require_ground_truth : bool) (tree : list file) :
  directory_tree anno_data_folder = Value tree →
  ∃ results,
    find_image_files directory_tree file_exists anno_data_folder require_ground_truth
      = Returned
          (results,
           console_line file_exists require_ground_truth
             <$> filter (λ f, is_image_file f) tree).
Proof.
  intros Htree. unfold find_image_files, get_files_in_directory_tree.
  rewrite Htree. simpl. rewrite add_image_files. by eexists.
Qed.

(** X24: every pair that [find_image_files] returns names an image file
    of the listing; its label name is empty or the image name followed by
    _mask.png, and then that file could be opened.  When ground truth is
    required no label name is empty. *)
Theorem find_image_files_labels (directory_tree : string → library_result (list file))
    (file_exists : string → bool) (anno_data_folder : string)
    (require_ground_truth : bool) (results : list image_filenames)
    (console : list string) (filenames : image_filenames) :
  find_image_files directory_tree file_exists anno_data_folder require_ground_truth
    = Returned (results, console) →
  filenames ∈ results →
  (∃ tree f, directory_tree anno_data_folder = Value tree ∧ f ∈ tree ∧
             is_image_file f = true ∧ image_filename filenames = full_name f) ∧
  (label_filename filenames = "" ∧ require_ground_truth = false ∧
   file_exists (image_filename filenames +:+ "_mask.png") = false ∨
   label_filename filenames = image_filename filenames +:+ "_mask.png" ∧
   file_exists (label_filename filenames) = true).
Proof.
  unfold find_image_files, get_files_in_directory_tree.
  destruct (directory_tree anno_data_folder) as [tree|what] eqn:Htree; [|done].
  simpl. rewrite add_image_files. intros [= <- _] Hin.
  apply list_elem_of_fmap in Hin as (f & -> & Hf).
  apply list_elem_of_filter in Hf as [Hkept Hf].
  apply list_elem_of_filter in Hf as [Himage Hf].
  split.
  - exists tree, f. repeat split; try done. by apply Is_true_true.
  - unfold kept, filenames_of, mask_name in *. simpl.
    destruct (file_exists (full_name f +:+ "_mask.png")) eqn:Hexists.
    + by right.
    + left. by destruct require_ground_truth.
Qed.

Lemma find_image_files_results_witness :
  ∃ console,
    find_image_files directory_tree_example file_exists_example "/data" true
      = Returned
          (filenames_of file_exists_example
             <$> filter (λ f, kept file_exists_example true f)
                   (filter (λ f, is_image_file f) files_example),
           console).
Proof.
  apply (find_image_files_results directory_tree_example file_exists_example
           "/data" true files_example).
  reflexivity.
Defined.

Lemma find_image_files_console_witness :
  ∃ results,
    find_image_files directory_tree_example file_exists_example "/data" true
      = Returned
          (results,
           console_line file_exists_example true
             <$> filter (λ f, is_image_file f) files_example).
Proof.
  apply (find_image_files_console directory_tree_example file_exists_example
           "/data" true files_example).
  reflexivity.
Defined.

Lemma find_image_files_labels_witness :
  let filenames := MkImageFilenames "/data/a.png" "/data/a.png_mask.png" in
  (∃ tree f, directory_tree_example "/data" = Value tree ∧ f ∈ tree ∧
             is_image_file f = true ∧ image_filename filenames = full_name f) ∧
  (label_filename filenames = "" ∧ true = false ∧
   file_exists_example (image_filename filenames +:+ "_mask.png") = false ∨
   label_filename filenames = image_filename filenames +:+ "_mask.png" ∧
   file_exists_example (label_filename filenames) = true).
Proof.
  intros filenames.
  apply (find_image_files_labels directory_tree_example file_exists_example
           "/data" true [filenames]
           ["Added file /data/a.png"; "Warning: unable to open "] filenames).
  - reflexivity.
  - apply list_elem_of_here.
Defined.

(** ** Decimal indices *)

Lemma digit_value_pretty_N_char (d : N) :
  (d < 10)%N → digit_value (pretty_N_char d) = Some (Z.of_N d).
Proof.
  intros Hd.
  assert (d = 0 ∨ d = 1 ∨ d = 2 ∨ d = 3 ∨ d = 4 ∨ d = 5 ∨ d = 6 ∨ d = 7
          ∨ d = 8 ∨ d = 9)%N as Hcases by lia.
  repeat (destruct Hcases as [->|Hcases]; [reflexivity|]). by subst.
Qed.

(** Reading the digits that [pretty_N_go] puts in front of [s]. *)
Lemma read_digits_pretty_N_go (x : N) :
  ∀ (s : string) (acc : option Z), (0 < x)%N →
  ∃ k, 0 ≤ k ∧
    read_digits (pretty_N_go x s) acc =
      read_digits s (Some (default 0 acc * 10 ^ k + Z.of_N x)).
Proof.
  induction (N.lt_wf_0 x) as [x _ IH]; intros s acc Hx.
  rewrite pretty_N_go_step by done.
  pose proof (N.mod_lt x 10 ltac:(lia)) as Hmod.
  pose proof (N.div_mod x 10 ltac:(lia)) as Hdiv.
  destruct (decide (x `div` 10 = 0)%N) as [H0|H0].
  - rewrite H0, pretty_N_go_0. exists 1. split; [lia|].
    simpl. rewrite digit_value_pretty_N_char by done.
    apply (f_equal (read_digits s)), f_equal. lia.
  - destruct (IH (x `div` 10)%N ltac:(apply N.div_lt; lia)
                (String (pretty_N_char (x `mod` 10)) s) acc ltac:(lia))
      as (k & Hk & ->).
    exists (k + 1). split; [lia|].
    simpl. rewrite digit_value_pretty_N_char by done. simpl.
    apply (f_equal (read_digits s)), f_equal.
    rewrite Z.pow_add_r by lia. lia.
Qed.

Lemma read_digits_pretty (x : N) : read_digits (pretty x) None = Some (Z.of_N x).
Proof.
  unfold pretty, pretty_N. destruct (decide (x = 0)%N) as [->|Hx]; [done|].
  destruct (read_digits_pretty_N_go x "" None ltac:(lia)) as (k & _ & ->).
  simpl. f_equal; lia.
Qed.

Lemma only_digits_pretty_N_go (x : N) :
  ∀ s, only_digits s = true → only_digits (pretty_N_go x s) = true.
Proof.
  induction (N.lt_wf_0 x) as [x _ IH]; intros s Hs.
  destruct (decide (x = 0)%N) as [->|Hx]; [by rewrite pretty_N_go_0|].
  rewrite pretty_N_go_step by lia. apply IH; [apply N.div_lt; lia|].
  simpl. by rewrite digit_value_pretty_N_char by (apply N.mod_lt; lia).
Qed.

Lemma pretty_N_go_nonempty (x : N) :
  ∀ s, s ≠ "" → pretty_N_go x s ≠ "".
Proof.
  induction (N.lt_wf_0 x) as [x _ IH]; intros s Hs.
  destruct (decide (x = 0)%N) as [->|Hx]; [by rewrite pretty_N_go_0|].
  rewrite pretty_N_go_step by lia. apply IH; [apply N.div_lt; lia|done].
Qed.

Lemma pretty_digits (x : N) : only_digits (pretty x) = true ∧ pretty x ≠ "".
Proof.
  unfold pretty, pretty_N. destruct (decide (x = 0)%N) as [->|Hx]; [done|].
  split; [by apply only_digits_pretty_N_go|].
  rewrite pretty_N_go_step by lia. by apply pretty_N_go_nonempty.
Qed.

Lemma digit_value_plain (a : ascii) (d : Z) :
  digit_value a = Some d →
  isspace a = false ∧ a ≠ "-"%char ∧ a ≠ "+"%char ∧ a ≠ ":"%char.
Proof.
  unfold digit_value, isspace.
  destruct (Z.leb_spec 48 (Z.of_N (N_of_ascii a))) as [Hlo|?]; [|done].
  destruct (Z.leb_spec (Z.of_N (N_of_ascii a)) 57) as [Hhi|?]; [|done].
  intros _. split.
  - destruct (Z.eqb_spec (Z.of_N (N_of_ascii a)) 32) as [?|_]; [lia|].
    destruct (Z.leb_spec (Z.of_N (N_of_ascii a)) 13) as [?|_]; [lia|].
    by rewrite andb_false_r.
  - repeat split; intros ->; compute in Hlo, Hhi; (by apply Hlo) || (by apply Hhi).
Qed.

(** Where [find] sees the colon after a run of digits. *)
Lemma find_from_after_digits (digits rest : string) :
  only_digits digits = true →
  ∀ pos, find_from ":"%char (digits +:+ String ":"%char rest) pos
         = pos + str_length digits.
Proof.
  induction digits as [|a digits IH]; intros Hd pos; simpl.
  - unfold str_length. simpl. lia.
  - simpl in Hd. destruct (digit_value a) as [d|] eqn:Ha; [|done].
    apply digit_value_plain in Ha as (_ & _ & _ & Hcolon).
    destruct (Ascii.eqb_spec a ":"%char) as [?|_]; [done|].
    rewrite IH by done. unfold str_length. simpl. lia.
Qed.

Lemma substring_front (front rest : string) :
  String.substring 0 (String.length front) (front +:+ rest) = front.
Proof. induction front as [|a front IH]; simpl; [by destruct rest|by rewrite IH]. Qed.

Lemma append_colon (front rest : string) :
  (front +:+ ":") +:+ rest = front +:+ String ":"%char rest.
Proof.
  induction front as [|a front IH]; [done|].
  change (String a ((front +:+ ":") +:+ rest)
          = String a (front +:+ String ":"%char rest)).
  by f_equal.
Qed.

Lemma stoul_digits (digits : string) (n : Z) :
  only_digits digits = true → digits ≠ "" →
  read_digits digits None = Some n →
  stoul digits = if ULONG_MAX <? n then Thrown "stoul" else Returned n.
Proof.
  intros Hd Hne Hn. destruct digits as [|a digits]; [done|].
  simpl in Hd. destruct (digit_value a) as [d|] eqn:Ha; [|done].
  apply digit_value_plain in Ha as (Hspace & Hminus & Hplus & _).
  unfold stoul. simpl skip_spaces. rewrite Hspace.
  assert (match String a digits with
          | String "-"%char rest => (true, rest)
          | String "+"%char rest => (false, rest)
          | _ => (false, String a digits)
          end = (false, String a digits)) as ->.
  { destruct a as [[] [] [] [] [] [] [] []]; try done. }
  by rewrite Hn.
Qed.

(** X25: a specification written as the decimal numeral of an index, a
    colon and a non-empty value part is split at that colon: the value
    part, colons and all, goes to [std::stod], and the class index is the
    numeral's value reduced to 16 bits, so 65537 stands for class 1.  A
    numeral above ULONG_MAX makes [std::stoul] throw. *)
Theorem parse_class_specific_value_decimal {double}
    (stod : string → library_result double) (i : N) (value_part : string) :
  value_part ≠ "" →
  str_length (pretty i +:+ String ":"%char value_part) < 2 ^ 64 →
  parse_class_specific_value stod (pretty i +:+ String ":"%char value_part) =
    if ULONG_MAX <? Z.of_N i then Thrown "stoul"
    else v ← call (stod value_part);
         Returned (MkClassSpecificValue (Z.of_N i mod 2 ^ 16) v).
Proof.
  intros Hvalue Hlen.
  destruct (pretty_digits i) as [Hdigits Hne].
  set (digits := pretty i) in *.
  unfold parse_class_specific_value, find.
  rewrite find_from_after_digits by done. rewrite Z.add_0_l.
  rewrite str_length_append in *.
  assert (str_length (String ":"%char value_part) = 1 + str_length value_part) as Hcolon
    by (unfold str_length; simpl; lia).
  rewrite Hcolon in *.
  assert (1 ≤ str_length digits) as Hd1.
  { destruct digits; [done|]. unfold str_length. simpl. lia. }
  assert (1 ≤ str_length value_part) as Hv1.
  { destruct value_part; [done|]. unfold str_length. simpl. lia. }
  unfold to_size_t, npos.
  rewrite (Z.mod_small (str_length digits + (1 + str_length value_part) - 1)) by lia.
  destruct (Z.eqb_spec (str_length digits) (2 ^ 64 - 1)) as [?|_]; [lia|].
  destruct (Z.ltb_spec (str_length digits) 1) as [?|_]; [lia|].
  rewrite Z.geb_leb.
  destruct (Z.leb_spec (str_length digits + (1 + str_length value_part) - 1)
              (str_length digits)) as [?|_]; [lia|].
  simpl orb. cbv iota.
  assert (substr (digits +:+ String ":"%char value_part) 0 (str_length digits)
          = digits) as ->.
  { unfold substr. rewrite str_length_append, Hcolon.
    replace (Z.to_nat (Z.min _ _)) with (String.length digits)
      by (unfold str_length in *; lia).
    apply substring_front. }
  assert (substr (digits +:+ String ":"%char value_part) (str_length digits + 1)
            (2 ^ 64 - 1) = value_part) as ->.
  { unfold substr. rewrite str_length_append, Hcolon.
    replace (Z.to_nat (Z.min _ _)) with (String.length value_part)
      by (unfold str_length in *; lia).
    replace (Z.to_nat (str_length digits + 1))
      with (String.length (digits +:+ ":")).
    - rewrite <- (append_colon digits value_part). apply substring_after.
    - rewrite string_length_append. unfold str_length. simpl. lia. }
  rewrite (stoul_digits digits (Z.of_N i) Hdigits Hne (read_digits_pretty i)).
  by destruct (ULONG_MAX <? Z.of_N i).
Qed.

Lemma parse_class_specific_value_decimal_witness :
  parse_class_specific_value stod_decimal (pretty 65537%N +:+ String ":"%char "0.5") =
    if ULONG_MAX <? Z.of_N 65537 then Thrown "stoul"
    else v ← call (stod_decimal "0.5");
         Returned (MkClassSpecificValue (Z.of_N 65537 mod 2 ^ 16) v).
Proof.
  apply (parse_class_specific_value_decimal stod_decimal 65537 "0.5").
  - discriminate.
  - vm_compute. reflexivity.
Defined.

(** ** The size check *)

(** X26: when the label image differs from the image in its rows and in
    its columns, the sample reports "Label image size mismatch", keeps
    the image and holds no labels, whatever colours the label image
    has. *)
Theorem read_sample_size_mismatch (load_image : string → library_result (matrix Z))
    (load_rgba_image : string → library_result (matrix rgb_alpha_pixel))
    (filenames : image_filenames) (anno_classes : list AnnoClass)
    (require_ground_truth : bool) (image : matrix Z)
    (rgba_label_image : matrix rgb_alpha_pixel) :
  load_image (image_filename filenames) = Value image →
  label_filename filenames ≠ "" →
  load_rgba_image (label_filename filenames) = Value rgba_label_image →
  nr image ≠ nr rgba_label_image →
  nc image ≠ nc rgba_label_image →
  read_sample load_image load_rgba_image filenames anno_classes require_ground_truth
    = Returned (MkSample filenames image empty_matrix ∅ "Label image size mismatch").
Proof.
  intros Himage Hname Hlabel Hnr Hnc.
  apply String.eqb_neq in Hname. apply Z.eqb_neq in Hnr, Hnc.
  unfold read_sample, read_sample_try. rewrite Himage, Hname, Hlabel. simpl.
  by rewrite Hnr, Hnc.
Qed.

Lemma read_sample_size_mismatch_witness :
  read_sample load_image_example (λ _, Value (Matrix 3 1 (λ _ _, RgbAlphaPixel 9 9 9 9)))
    (MkImageFilenames "a.png" "a.png_mask.png") default_anno_classes false
    = Returned (MkSample (MkImageFilenames "a.png" "a.png_mask.png")
                  (Matrix 2 2 (λ _ _, 128)) empty_matrix ∅
                  "Label image size mismatch").
Proof.
  apply (read_sample_size_mismatch load_image_example
           (λ _, Value (Matrix 3 1 (λ _ _, RgbAlphaPixel 9 9 9 9)))
           (MkImageFilenames "a.png" "a.png_mask.png") default_anno_classes false
           (Matrix 2 2 (λ _ _, 128)) (Matrix 3 1 (λ _ _, RgbAlphaPixel 9 9 9 9)));
    (reflexivity || discriminate).
Defined.

Lemma rgba_label_to_index_label_known_witness :
  (∃ i, rgba_label_to_index_label (RgbAlphaPixel 255 0 0 128) default_anno_classes
          = Returned i ∧
        (RgbAlphaPixel 255 0 0 128 = rgba_ignore_label ∧ i = label_to_ignore ∨
         ∃ c, c ∈ default_anno_classes ∧
              rgba_label c = RgbAlphaPixel 255 0 0 128 ∧ index c = i)) ∧
  rgba_label_to_index_label (RgbAlphaPixel 1 2 3 4) default_anno_classes
    = Thrown (unknown_class_message (RgbAlphaPixel 1 2 3 4)).
Proof.
  split.
  - apply (rgba_label_to_index_label_known default_anno_classes
             (RgbAlphaPixel 255 0 0 128)).
    right. apply list_elem_of_further, list_elem_of_here.
  - apply (rgba_label_to_index_label_known default_anno_classes
             (RgbAlphaPixel 1 2 3 4)).
    intros [H|H]; [discriminate H|].
    apply list_elem_of_fmap in H as (k & Hk & Hin).
    repeat (apply elem_of_cons in Hin as [->|Hin]; [discriminate Hk|]).
    by apply elem_of_nil in Hin.
Defined.
